(** * EchoText: transcription and chunked summarization (app.py)

    A shallow embedding of the two pipeline functions of [app.py],
    [transcribe_audio] and [summarize_text_offline], together with the
    properties the specification states about them.

    Python values are modelled as follows.
    - [str] is a sequence of Unicode code points ([list N]): [len], slicing
      and [strip] all work on code points.
    - [bytes] is [list Byte.byte].
    - a [dict] with string keys and string values is a [gmap str str].
    - the pair a function returns, [(value, None)] or [(None, message)], is
      [option str * option str].
    - a raised exception is the [Raised] outcome of a computation; it is
      distinct from a returned pair.
    - the external engines (the Vosk recognizer, the transformers pipeline)
      are interfaces ([Class]es); every theorem quantifies over them. *)

From Stdlib Require Import ZArith NArith Ascii String Strings.Byte.
From stdpp Require Import base list gmap.

Local Open Scope Z_scope.
Local Open Scope nat_scope.

(** ** Python strings *)

Abbreviation str := (list N).
Abbreviation dict := (gmap (list N) (list N)).
Abbreviation bytes := (list byte).

(** A literal of the source, read as its code points (the literals of
    [app.py] used here are ASCII). *)
Definition lit (s : string) : str :=
  map N_of_ascii (list_ascii_of_string s).

(** [str.isspace] for one code point: CPython's [_PyUnicode_IsWhitespace]. *)
Definition isspace (c : N) : bool :=
  ((9 <=? c) && (c <=? 13) || (28 <=? c) && (c <=? 32)
   || (c =? 133) || (c =? 160) || (c =? 5760)
   || (8192 <=? c) && (c <=? 8202)
   || (c =? 8232) || (c =? 8233) || (c =? 8239) || (c =? 8287)
   || (c =? 12288))%N.

Fixpoint lstrip (s : str) : str :=
  match s with
  | c :: s' => if isspace c then lstrip s' else s
  | [] => []
  end.

Definition rstrip (s : str) : str := reverse (lstrip (reverse s)).

(** [s.strip()] *)
Definition strip (s : str) : str := rstrip (lstrip s).

(** A string of whitespace only (the empty string is one). *)
Definition blank (text : str) : Prop :=
  Forall (fun c => isspace c = true) text.

(** A string that neither starts nor ends with whitespace. *)
Definition trimmed (s : str) : Prop :=
  (forall c, head s = Some c -> isspace c = false)
  /\ (forall c, last s = Some c -> isspace c = false).

(** [sep.join(l)] *)
Fixpoint join (sep : str) (l : list str) : str :=
  match l with
  | [] => []
  | [s] => s
  | s :: l' => s ++ sep ++ join sep l'
  end.

(** [d.get(key, dflt)] *)
Definition dict_get (d : dict) (key dflt : str) : str :=
  default dflt (d !! key).

(** ** Slices and ranges *)

Section Slices.
Context {A : Type}.

(** [s[i:j]] for [0 <= i <= j]; the bounds are clamped to [len(s)]. *)
Definition slice (s : list A) (i j : nat) : list A :=
  take (j - i) (drop i s).

(** [range(0, stop, step)] for [step > 0]: it has
    [(stop + step - 1) // step] elements, the multiples of [step]. *)
Definition range0 (stop step : nat) : list nat :=
  map (fun k => k * step) (seq 0 ((stop + step - 1) / step)).

(** [[s[i:i + n] for i in range(0, len(s), n)]] *)
Definition slices (n : nat) (s : list A) : list (list A) :=
  map (fun i => slice s i (i + n)) (range0 (length s) n).
End Slices.

(** ** Exceptions and the state-and-exception monad *)

Inductive exn : Type :=
| Exception (msg : string)   (* raised by an external engine *)
| IndexError
| KeyError (key : str).

(** How a call ends.  [Exhausted] is the outcome of a loop that was given
    too small an iteration bound; [transcribe_audio] never produces it
    (lemma [transcribe_audio_total]). *)
Inductive outcome (A : Type) : Type :=
| Returned (v : A)
| Raised (e : exn)
| Exhausted.
Arguments Returned {A} v.
Arguments Raised {A} e.
Arguments Exhausted {A}.

Definition M (W A : Type) : Type := W -> W * outcome A.

Definition ret {W A} (v : A) : M W A := fun w => (w, Returned v).
Definition raise {W A} (e : exn) : M W A := fun w => (w, Raised e).
Definition bind {W A B} (m : M W A) (k : A -> M W B) : M W B :=
  fun w =>
    match m w with
    | (w', Returned v) => k v w'
    | (w', Raised e) => (w', Raised e)
    | (w', Exhausted) => (w', Exhausted)
    end.

Notation "'let*' x ':=' m 'in' k" := (bind m (fun x => k))
  (at level 10, x pattern, m at level 100, k at level 200).
Notation "m ';;' k" := (bind m (fun _ => k))
  (at level 100, k at level 200, right associativity).

(** ** The transcriber: [transcribe_audio] *)

(** A PCM WAVE container: the three fields of its format chunk that the
    code reads, and the bytes of its data chunk. *)
Record wav_file : Type := WavFile {
  nchannels : Z;
  sampwidth : Z;
  framerate : Z;
  frames : bytes
}.

(** The [Wave_read] object: the file it reads, the bytes of the data chunk
    not read yet, and whether [close] was called on it. *)
Record wave_read : Type := WaveRead {
  source : wav_file;
  unread : bytes;
  closed : bool
}.

Inductive tevent : Type :=
| EvOpen
| EvClose
| EvReadFrames (n : nat) (got : bytes)
| EvRecognizer (rate : Z)
| EvAcceptWaveform (data : bytes)
| EvResult
| EvFinalResult.

(** What [transcribe_audio] acts on: its audio handle, and the calls made
    on the handle and on the recognizer so far, oldest first. *)
Record tworld : Type := TWorld {
  audio : wave_read;
  tlog : list tevent
}.

(** The Vosk recognizer.  [Result] and [FinalResult] stand for the call
    followed by [json.loads]: they give the decoded JSON object. *)
Class Recognizer (R : Type) : Type := {
  KaldiRecognizer : Z -> exn + R;
  AcceptWaveform : R -> bytes -> exn + (R * bool);
  Result : R -> exn + (R * dict);
  FinalResult : R -> exn + (R * dict)
}.

Definition InvalidAudioFormat : str := lit "Audio must be WAV mono PCM (16-bit).".

Definition emit (ev : tevent) (w : tworld) : tworld :=
  TWorld (audio w) (tlog w ++ [ev]).

(** The headers [wave.open] accepts.  The fields are unsigned (16 bits
    for the channel count and for the sample size in bits, of which the
    width is the number of bytes; 32 bits for the rate), and wave.py raises
    [wave.Error] for a sample width of 0 and for 0 channels. *)
Definition wave_accepts (file : wav_file) : Prop :=
  (1 <= nchannels file <= 65535)%Z
  /\ (1 <= sampwidth file <= 8192)%Z
  /\ (0 <= framerate file < 2 ^ 32)%Z.

(** What [wave.open] raises on a header it refuses, in the order of
    wave.py: the sample width is checked before the channel count. *)
Definition wave_refusal (file : wav_file) : option exn :=
  if (sampwidth file =? 0)%Z then Some (Exception "bad sample width")
  else if (nchannels file =? 0)%Z then Some (Exception "bad # of channels")
  else None.

(** [wave.open(file_path, "rb")], on a container it accepts: the handle. *)
Definition wave_open (file : wav_file) : tworld :=
  TWorld (WaveRead file (frames file) false) [EvOpen].

Definition getnchannels : M tworld Z :=
  fun w => (w, Returned (nchannels (source (audio w)))).
Definition getsampwidth : M tworld Z :=
  fun w => (w, Returned (sampwidth (source (audio w)))).
Definition getframerate : M tworld Z :=
  fun w => (w, Returned (framerate (source (audio w)))).

Definition framesize (a : wave_read) : nat :=
  Z.to_nat (nchannels (source a) * sampwidth (source a)).

(** [audio.readframes(n)]: up to [n] frames of what is left. *)
Definition readframes (n : nat) : M tworld bytes :=
  fun w =>
    let a := audio w in
    let k := n * framesize a in
    let data := take k (unread a) in
    (TWorld (WaveRead (source a) (drop k (unread a)) (closed a))
            (tlog w ++ [EvReadFrames n data]),
     Returned data).

(** [audio.close()] *)
Definition close : M tworld unit :=
  fun w =>
    let a := audio w in
    (TWorld (WaveRead (source a) (unread a) true) (tlog w ++ [EvClose]),
     Returned tt).

(** A call on the recognizer: logged, and raising what the engine raises. *)
Definition engine {A} (ev : tevent) (r : exn + A) : M tworld A :=
  fun w =>
    match r with
    | inl e => (emit ev w, Raised e)
    | inr v => (emit ev w, Returned v)
    end.

Section Transcriber.
Context {R : Type} `{Recognizer R}.

(** The [while True] loop of [transcribe_audio]; [n] bounds the number
    of iterations. *)
Fixpoint decode_loop (n : nat) (rec : R) (text : str) : M tworld (R * str) :=
  match n with
  | 0 => fun w => (w, Exhausted)
  | S n' =>
      let* data := readframes 4000 in
      if length data =? 0 then ret (rec, text)
      else
        let* (rec, boundary) := engine (EvAcceptWaveform data) (AcceptWaveform rec data) in
        if (boundary : bool) then
          let* (rec, res) := engine EvResult (Result rec) in
          let part := dict_get res (lit "text") (lit "") in
          decode_loop n' rec (text ++ part ++ lit " ")
        else decode_loop n' rec text
  end.

Definition transcribe_body (n : nat) : M tworld (option str * option str) :=
  let* nch := getnchannels in
  let* sw := getsampwidth in
  let* fr := getframerate in
  if negb (nch =? 1)%Z || negb (sw =? 2)%Z
     || negb ((8000 <=? fr)%Z && (fr <=? 48000)%Z)
  then
    close ;;
    ret (None, Some InvalidAudioFormat)
  else
    let* fr := getframerate in
    let* rec := engine (EvRecognizer fr) (KaldiRecognizer fr) in
    let text := lit "" in
    let* (rec, text) := decode_loop n rec text in
    let* (rec, res) := engine EvFinalResult (FinalResult rec) in
    let final := dict_get res (lit "text") (lit "") in
    let text := text ++ final in
    close ;;
    ret (Some (strip text), None).

(** [transcribe_audio(file_path)].  Every iteration of the loop that does
    not leave it consumes at least one byte, so one more iteration than
    the data chunk has bytes is enough. *)
Definition transcribe_audio (file : wav_file)
  : tworld * outcome (option str * option str) :=
  transcribe_body (S (length (frames file))) (wave_open file).

(** [transcribe_audio(file_path)] on any container: when [wave.open]
    refuses the header, its exception leaves the function at line 91, with
    no handle made. *)
Definition transcribe_container (file : wav_file)
  : option tworld * outcome (option str * option str) :=
  match wave_refusal file with
  | Some e => (None, Raised e)
  | None => let '(w, out) := transcribe_audio file in (Some w, out)
  end.

(** *** The decoding, in the words of the specification *)

(** The frame batches: 4000 frames of 2 bytes each per read. *)
Definition batches (file : wav_file) : list bytes :=
  slices (4000 * 2) (frames file).

(** Feeding the batches in order: the calls made, and either the error
    of the first call that fails, or the recognizer reached and the
    finalized partial text of every batch with an utterance boundary. *)
Fixpoint feed (rec : R) (bs : list bytes)
  : list tevent * (exn + (R * list str)) :=
  match bs with
  | [] => ([], inr (rec, []))
  | b :: bs' =>
      let fed := [EvReadFrames 4000 b; EvAcceptWaveform b] in
      match AcceptWaveform rec b with
      | inl e => (fed, inl e)
      | inr (rec1, false) =>
          let '(evs, res) := feed rec1 bs' in (fed ++ evs, res)
      | inr (rec1, true) =>
          match Result rec1 with
          | inl e => (fed ++ [EvResult], inl e)
          | inr (rec2, d) =>
              let '(evs, res) := feed rec2 bs' in
              (fed ++ EvResult :: evs,
               match res with
               | inl e => inl e
               | inr (rec', parts) =>
                   inr (rec', dict_get d (lit "text") (lit "") :: parts)
               end)
          end
      end
  end.

(** The running transcript: every part followed by one separator. *)
Definition running (parts : list str) : str :=
  concat (map (fun part => part ++ lit " ") parts).

Definition valid_format (file : wav_file) : Prop :=
  nchannels file = 1%Z /\ sampwidth file = 2%Z
  /\ (8000 <= framerate file <= 48000)%Z.
End Transcriber.

(** The reads a log records: how many frames were asked for, and the
    bytes got. *)
Definition reads_of (log : list tevent) : list (nat * bytes) :=
  omap (fun ev => match ev with
                  | EvReadFrames n got => Some (n, got)
                  | _ => None
                  end) log.

(** ** The summarizer: [summarize_text_offline] *)

Inductive sevent : Type :=
| EvSummarize (chunk : str) (max_length min_length : nat) (do_sample : bool).

(** The transformers pipeline [summarizer]: a call gives a list of
    objects, or raises; the engine may keep state between calls. *)
Class Pipeline (G : Type) : Type := {
  summarizer : G -> str -> nat -> nat -> bool -> G * (exn + list dict)
}.

(** What [summarize_text_offline] acts on: the pipeline, and the calls made
    on it so far, oldest first. *)
Record sworld (G : Type) : Type := SWorld {
  model : G;
  slog : list sevent
}.
Arguments SWorld {G} model slog.
Arguments model {G} s.
Arguments slog {G} s.

(** The call [summarize_text_offline] makes for a chunk. *)
Definition summarize_event (chunk : str) : sevent :=
  EvSummarize chunk 160 60 false.

Definition EmptyTranscript : str := lit "Empty transcript, cannot summarize.".

Definition nl : str := [10%N].

(** The f-string of [summarize_text_offline]. *)
Definition prompt_of (text : str) : str :=
  nl ++ lit "You are an expert meeting summarizer." ++ nl
  ++ nl ++ lit "Create a contextual summary with:" ++ nl
  ++ lit "1) Main topic" ++ nl
  ++ lit "2) Key points (bullets)" ++ nl
  ++ lit "3) Action items (if any)" ++ nl
  ++ lit "4) Important entities (names, dates, places)" ++ nl
  ++ nl ++ lit "Transcript:" ++ nl
  ++ text ++ nl.

Definition max_chars : nat := 1200.

Definition chunks_of (prompt : str) : list str := slices max_chars prompt.

(** [out[0]] *)
Definition first_item {W : Type} (out : list dict) : M W dict :=
  match out with
  | d :: _ => ret d
  | [] => raise IndexError
  end.

(** [d[key]] *)
Definition getitem {W : Type} (d : dict) (key : str) : M W str :=
  match d !! key with
  | Some v => ret v
  | None => raise (KeyError key)
  end.

Section Summarizer.
Context {G : Type} `{Pipeline G}.

(** [summarizer(chunk, max_length=.., min_length=.., do_sample=..)] *)
Definition call_summarizer (chunk : str) (max_length min_length : nat)
    (do_sample : bool) : M (sworld G) (list dict) :=
  fun w =>
    let '(s', r) := summarizer (model w) chunk max_length min_length do_sample in
    let w' := SWorld s' (slog w ++ [EvSummarize chunk max_length min_length do_sample]) in
    match r with
    | inl e => (w', Raised e)
    | inr out => (w', Returned out)
    end.

(** The [for chunk in chunks] loop, from a list [summaries] built so far. *)
Fixpoint summarize_chunks (chunks : list str) (summaries : list str)
  : M (sworld G) (list str) :=
  match chunks with
  | [] => ret summaries
  | chunk :: chunks' =>
      let* out := call_summarizer chunk 160 60 false in
      let* item := first_item out in
      let* summary := getitem item (lit "summary_text") in
      summarize_chunks chunks' (summaries ++ [summary])
  end.

Definition summarize_text_offline (text : str)
  : M (sworld G) (option str * option str) :=
  if bool_decide (text = []) || bool_decide (strip text = []) then
    ret (None, Some EmptyTranscript)
  else
    let prompt := prompt_of text in
    let chunks := chunks_of prompt in
    let* summaries := summarize_chunks chunks [] in
    ret (Some (strip (join (lit " ") summaries)), None).

(** *** The generation, in the words of the specification *)

(** The output of the model for one chunk: the [summary_text] of the
    first object it gives. *)
Definition summary_of (r : exn + list dict) : exn + str :=
  match r with
  | inl e => inl e
  | inr [] => inl IndexError
  | inr (d :: _) =>
      match d !! lit "summary_text" with
      | Some v => inr v
      | None => inl (KeyError (lit "summary_text"))
      end
  end.

(** The model is given the chunks [cs] one after the other, each with
    the generation settings of the source, and answers every one:
    [outs] are its outputs and [s'] the state it is left in. *)
Inductive generates : G -> list str -> G -> list str -> Prop :=
| generates_nil s : generates s [] s []
| generates_cons s c cs s1 r o s' outs :
    summarizer s c 160 60 false = (s1, r) ->
    summary_of r = inr o ->
    generates s1 cs s' outs ->
    generates s (c :: cs) s' (o :: outs).

(** The model answers the first [k] chunks of [cs] and fails with [e] on
    the next one, which leaves it in state [s']. *)
Inductive fails_at : G -> list str -> nat -> exn -> G -> Prop :=
| fails_here s c cs s' r e :
    summarizer s c 160 60 false = (s', r) ->
    summary_of r = inl e ->
    fails_at s (c :: cs) 0 e s'
| fails_later s c cs s1 r o k e s' :
    summarizer s c 160 60 false = (s1, r) ->
    summary_of r = inr o ->
    fails_at s1 cs k e s' ->
    fails_at s (c :: cs) (S k) e s'.
End Summarizer.

(** ** Concrete engines and inputs *)

(** A recognizer that follows a script: what it answers to each batch it
    is fed, and its final result. *)
Inductive step : Type :=
| Quiet                      (* no utterance boundary *)
| Utterance (text : str)     (* a boundary, with this finalized text *)
| Corrupt.                   (* the engine raises on this batch *)

Record scripted : Type := Scripted {
  script : list step;
  pending : str;
  final_text : str
}.

Definition scripted_recognizer (init : scripted) : Recognizer scripted := {|
  KaldiRecognizer _ := inr init;
  AcceptWaveform r _ :=
    match script r with
    | [] => inr (r, false)
    | Quiet :: rest => inr (Scripted rest (pending r) (final_text r), false)
    | Utterance t :: rest => inr (Scripted rest t (final_text r), true)
    | Corrupt :: _ => inl (Exception "Failed to process waveform")
    end;
  Result r := inr (r, {[ lit "text" := pending r ]});
  FinalResult r := inr (r, {[ lit "text" := final_text r ]})
|}.

Definition silence (n : nat) : bytes := repeat x00 n.

Definition mono16k (data : bytes) : wav_file := WavFile 1 2 16000 data.
Definition stereo44k (data : bytes) : wav_file := WavFile 2 2 44100 data.

(** A clip of one short batch, and one of two batches (8000 bytes, then 4). *)
Definition short_clip : wav_file := mono16k (silence 4).
Definition two_batches : wav_file := mono16k (silence (4000 * 2 + 4)).

(** An engine that raises on the first batch; one that finalizes [hello]
    on the first batch and raises on the second; one that finalizes
    [hello] on the first batch, the empty text on the second, and ends
    with [world]. *)
Definition corrupt_engine : Recognizer scripted :=
  scripted_recognizer (Scripted [Corrupt] [] []).
Definition broken_engine : Recognizer scripted :=
  scripted_recognizer (Scripted [Utterance (lit "hello"); Corrupt] [] (lit "world")).
Definition hello_engine : Recognizer scripted :=
  scripted_recognizer
    (Scripted [Utterance (lit "hello"); Utterance (lit "")] [] (lit "world")).

(** An engine that finalizes the empty text on the first batch, [world]
    on the second, and has nothing left at the end. *)
Definition pause_engine : Recognizer scripted :=
  scripted_recognizer
    (Scripted [Utterance (lit ""); Utterance (lit "world")] [] (lit "")).

(** A container with no channel. *)
Definition no_channels : wav_file := WavFile 0 2 16000 (silence 4).


(** A pipeline that counts its calls.  Without sampling it answers with
    the first eight characters of its input; with sampling the answer also
    depends on the number of calls made before. *)
Definition counting_pipeline : Pipeline nat := {|
  summarizer n chunk _ _ do_sample :=
    (S n,
     inr [ {[ lit "summary_text" :=
                if do_sample then N.of_nat n :: take 8 chunk else take 8 chunk ]} ])
|}.

(** A pipeline that raises on its second call. *)
Definition flaky_pipeline : Pipeline nat := {|
  summarizer n chunk _ _ _ :=
    (S n,
     if n =? 1 then inl (Exception "CUDA out of memory")
     else inr [ {[ lit "summary_text" := take 8 chunk ]} ])
|}.

(** A transcript of 1100 characters: its prompt takes two chunks. *)
Definition long_text : str := repeat 97%N 1100.

(** ** The upload filter: [allowed_file] *)

Definition ALLOWED_EXTENSIONS : gset (list N) := {[ lit "wav" ]}.

(** [str.lower] is the interpreter's; the code only asks whether the
    lowered extension is in [ALLOWED_EXTENSIONS]. *)
Class Casing : Type := {
  lower : str -> str
}.

Definition dot : N := 46%N.

(** [c in s], for a string [c] of one character. *)
Definition contains (c : N) (s : str) : bool := bool_decide (c ∈ s).

(** [s.rpartition(c)], when [c] occurs in [s]: what is before the last
    occurrence of [c], and what is after it. *)
Fixpoint rpartition (c : N) (s : str) : option (str * str) :=
  match s with
  | [] => None
  | a :: s' =>
      match rpartition c s' with
      | Some (before, after) => Some (a :: before, after)
      | None => if (a =? c)%N then Some ([], s') else None
      end
  end.

(** [s.rsplit(c, 1)] *)
Definition rsplit1 (c : N) (s : str) : list str :=
  match rpartition c s with
  | Some (before, after) => [before; after]
  | None => [s]
  end.

(** [l[i]] *)
Definition index {A : Type} (l : list A) (i : nat) : exn + A :=
  match l !! i with
  | Some x => inr x
  | None => inl IndexError
  end.

(** [allowed_file(filename)]; [and] evaluates its right operand only when
    the left one is true. *)
Definition allowed_file `{Casing} (filename : str) : exn + bool :=
  if contains dot filename then
    match index (rsplit1 dot filename) 1 with
    | inl e => inl e
    | inr ext => inr (bool_decide (lower ext ∈ ALLOWED_EXTENSIONS))
    end
  else inr false.

(** The part of the prompt before the transcript. *)
Definition instructions : str :=
  nl ++ lit "You are an expert meeting summarizer." ++ nl
  ++ nl ++ lit "Create a contextual summary with:" ++ nl
  ++ lit "1) Main topic" ++ nl
  ++ lit "2) Key points (bullets)" ++ nl
  ++ lit "3) Action items (if any)" ++ nl
  ++ lit "4) Important entities (names, dates, places)" ++ nl
  ++ nl ++ lit "Transcript:" ++ nl.

(** ** The routes [upload] and [history] *)

(** The values of a Firestore document or of a JSON body. *)
Inductive value : Type :=
| VNone
| VStr (s : str)
| VServerTimestamp
| VTimestamp (seconds : Z).

#[global] Instance value_eq_dec : EqDecision value.
Proof. solve_decision. Defined.

Abbreviation document := (gmap (list N) value).

(** [session["user"]], as [login] and [signup] set it. *)
Record account : Type := Account {
  email : str;
  uid : str;
  idToken : str
}.

Abbreviation session := (gmap (list N) account).

(** An entry of [request.files]. *)
Record upload_file : Type := UploadFile {
  filename : str;
  content : bytes
}.

Inductive response : Type :=
| Redirect (endpoint : str)                      (* redirect(url_for(endpoint)) *)
| Json (status : nat) (body : document)          (* jsonify(dict), status *)
| JsonList (status : nat) (items : list document).

(** What the routes take from their platform: the configured folder, the
    path functions, and [wave.open] reading the header of a stored file,
    which gives the container or raises. *)
Class Platform : Type := {
  UPLOAD_FOLDER : str;
  secure_filename : str -> str;
  path_join : str -> str -> str;
  wave_parse : bytes -> exn + wav_file
}.

(** The collection [records] of the Firestore client: [add], and
    [where("uid", "==", uid).limit(n).stream()], which gives the identifier
    and the fields of every document streamed. *)
Class Firestore (D : Type) : Type := {
  add_record : D -> document -> exn + D;
  stream_records : D -> str -> nat -> exn + list (str * document)
}.

(** What a request acts on: the summarization pipeline and the calls made
    on it; the audio handles opened, each as [transcribe_audio] left it;
    the database; the files stored. *)
Record uworld (G D : Type) : Type := UWorld {
  pipeline : sworld G;
  handles : list tworld;
  store : D;
  files : gmap (list N) bytes
}.
Arguments UWorld {G D} pipeline handles store files.
Arguments pipeline {G D} u.
Arguments handles {G D} u.
Arguments store {G D} u.
Arguments files {G D} u.

(** [require_login()] *)
Definition require_login (s : session) : bool :=
  bool_decide (is_Some (s !! lit "user")).

(** [None] as a [value]. *)
Definition of_optional (o : option str) : value :=
  match o with
  | Some s => VStr s
  | None => VNone
  end.

Definition error_body (message : str) : document :=
  {[ lit "error" := VStr message ]}.

(** The document [upload] stores. *)
Definition record_of (user : account) (unique_name : str)
    (transcript summary : option str) : document :=
  {[ lit "uid" := VStr (uid user);
     lit "email" := VStr (email user);
     lit "filename" := VStr unique_name;
     lit "transcription" := of_optional transcript;
     lit "summary" := of_optional summary;
     lit "created_at" := VServerTimestamp ]}.

(** The body [upload] answers with when a recording was processed. *)
Definition processed_body (transcript summary : option str) : document :=
  {[ lit "message" := VStr (lit "Processed successfully");
     lit "transcription" := of_optional transcript;
     lit "summary" := of_optional summary ]}.

(** Where [upload] stores a recording. *)
Definition stored_path `{Platform} (hex : str) : str :=
  path_join UPLOAD_FOLDER (secure_filename (hex ++ lit ".wav")).

Section Routes.
Context {R G D : Type} `{Recognizer R} `{Pipeline G} `{Firestore D}.
Context `{Casing} `{Platform}.

(** [file.save(filepath)] *)
Definition save (path : str) (data : bytes) : M (uworld G D) unit :=
  fun w =>
    (UWorld (pipeline w) (handles w) (store w) (<[path := data]> (files w)),
     Returned tt).

(** [transcribe_audio(filepath)] on a stored file: [wave.open] raises when
    there is no such file or when it is not a WAVE file. *)
Definition transcribe_path (path : str)
  : M (uworld G D) (option str * option str) :=
  fun w =>
    match files w !! path with
    | None => (w, Raised (Exception "No such file or directory"))
    | Some data =>
        match wave_parse data with
        | inl e => (w, Raised e)
        | inr file =>
            let '(tw, out) := transcribe_audio file in
            (UWorld (pipeline w) (handles w ++ [tw]) (store w) (files w), out)
        end
    end.

(** [summarize_text_offline(transcript)]; of [None], [not text] is true. *)
Definition summarize_optional (transcript : option str)
  : M (uworld G D) (option str * option str) :=
  fun w =>
    match transcript with
    | None => (w, Returned (None, Some EmptyTranscript))
    | Some text =>
        let '(p, out) := summarize_text_offline text (pipeline w) in
        (UWorld p (handles w) (store w) (files w), out)
    end.

(** [db.collection("records").add(doc)] *)
Definition add (doc : document) : M (uworld G D) unit :=
  fun w =>
    match add_record (store w) doc with
    | inl e => (w, Raised e)
    | inr d => (UWorld (pipeline w) (handles w) d (files w), Returned tt)
    end.

(** [session["user"]] *)
Definition session_user {W : Type} (s : session) : M W account :=
  match s !! lit "user" with
  | Some user => ret user
  | None => raise (KeyError (lit "user"))
  end.

Definition lift {W A : Type} (r : exn + A) : M W A :=
  match r with
  | inl e => raise e
  | inr v => ret v
  end.

(** The route [upload]: the session, [request.files], and the 32
    hexadecimal digits [uuid.uuid4().hex] gives. *)
Definition upload (s : session) (request_files : gmap (list N) upload_file)
    (hex : str) : M (uworld G D) response :=
  if negb (require_login s) then ret (Redirect (lit "login"))
  else
    match request_files !! lit "audio" with
    | None => ret (Json 400 (error_body (lit "No audio uploaded")))
    | Some file =>
        if bool_decide (filename file = lit "") then
          ret (Json 400 (error_body (lit "No selected file")))
        else
          let* allowed := lift (allowed_file (filename file)) in
          if negb allowed then
            ret (Json 400 (error_body (lit "Only .wav files allowed")))
          else
            let unique_name := hex ++ lit ".wav" in
            let filepath := path_join UPLOAD_FOLDER (secure_filename unique_name) in
            save filepath (content file) ;;
            let* (transcript, err) := transcribe_path filepath in
            match err with
            | Some (c :: err') => ret (Json 400 (error_body (c :: err')))
            | _ =>
                let* (summary, err2) := summarize_optional transcript in
                match err2 with
                | Some (c :: err2') => ret (Json 400 (error_body (c :: err2')))
                | _ =>
                    let* user := session_user s in
                    let doc := record_of user unique_name transcript summary in
                    add doc ;;
                    ret (Json 200 (processed_body transcript summary))
                end
            end
    end.

(** One turn of the loop of [history]: [x = d.to_dict()], [x["id"] = d.id],
    [x.pop("transcription", None)]. *)
Definition history_item (d : str * document) : document :=
  delete (lit "transcription") (<[ lit "id" := VStr (fst d) ]> (snd d)).

(** The route [history]. *)
Definition history (s : session) : M (uworld G D) response :=
  match s !! lit "user" with
  | None => ret (JsonList 200 [])
  | Some user =>
      let* docs := (fun w => lift (stream_records (store w) (uid user) 10) w) in
      ret (JsonList 200 (map history_item docs))
  end.
End Routes.

(** *** Concrete platform and database *)

(** Lowering of the letters A to Z only. *)
Definition ascii_lower : Casing := {|
  lower := map (fun c => if (65 <=? c)%N && (c <=? 90)%N then (c + 32)%N else c)
|}.

(** A platform whose files start with the channel count and the sample
    width, one byte each, followed by the data at 16000 Hz. *)
Definition toy_platform : Platform := {|
  UPLOAD_FOLDER := lit "static/uploads";
  secure_filename name := name;
  path_join folder name := folder ++ lit "/" ++ name;
  wave_parse data :=
    match data with
    | channels :: width :: frames =>
        inr (WavFile (Z.of_N (Byte.to_N channels)) (Z.of_N (Byte.to_N width))
                     16000 frames)
    | _ => inl (Exception "file does not start with RIFF id")
    end
|}.

(** A database that is the list of its documents; the identifier of a
    document is the character whose code point is its position. *)
Definition list_store : Firestore (list document) := {|
  add_record docs doc := inr (docs ++ [doc]);
  stream_records docs user n :=
    inr (take n
           (omap (fun '(i, doc) =>
                    if bool_decide (doc !! lit "uid" = Some (VStr user))
                    then Some ([N.of_nat i], doc) else None)
                 (imap (fun i doc => (i, doc)) docs)))
|}.

(** An engine that cannot be created, and one that hears nothing. *)
Definition unavailable_engine : Recognizer scripted := {|
  KaldiRecognizer _ := inl (Exception "Failed to create a recognizer");
  AcceptWaveform r _ := inr (r, false);
  Result r := inr (r, ∅);
  FinalResult r := inr (r, ∅)
|}.
Definition silent_engine : Recognizer scripted :=
  scripted_recognizer (Scripted [] [] []).

(** Stored recordings of the toy platform: mono 16-bit, and stereo. *)
Definition mono_upload : bytes := x01 :: x02 :: silence 4.
Definition stereo_upload : bytes := x02 :: x02 :: silence 4.

Definition alice : account :=
  Account (lit "alice@example.org") (lit "u1") (lit "token").

Definition logged_in : session := {[ lit "user" := alice ]}.

(** Requests with one file, named by the client, and a world in which
    nothing has happened yet. *)
Definition request_of (name : str) (data : bytes) : gmap (list N) upload_file :=
  {[ lit "audio" := UploadFile name data ]}.

Definition fresh_world : uworld nat (list document) :=
  UWorld (SWorld 0 []) [] [] ∅.

(** * Properties *)

(** ** Slices *)

Section SliceFacts.
Context {A : Type}.
Implicit Types (s : list A) (n k : nat).

Lemma slice_window s i n : slice s i (i + n) = take n (drop i s).
Proof. unfold slice. f_equal. lia. Qed.

Lemma slices_eq n s :
  slices n s = map (fun k => take n (drop (k * n) s))
                   (seq 0 ((length s + n - 1) / n)).
Proof.
  unfold slices, range0. rewrite List.map_map.
  apply List.map_ext. intros k. apply slice_window.
Qed.

(** The number of slices is the ceiling of [length s / n]. *)
Lemma slices_count n s :
  0 < n ->
  let c := length (slices n s) in
  length s <= c * n /\ forall j, length s <= j * n -> c <= j.
Proof.
  intros Hn. rewrite slices_eq, length_map, length_seq. cbv zeta.
  pose proof (Nat.div_mod (length s + n - 1) n ltac:(lia)) as Hdiv.
  pose proof (Nat.mod_upper_bound (length s + n - 1) n ltac:(lia)) as Hmod.
  set (q := (length s + n - 1) / n) in *.
  set (r := (length s + n - 1) mod n) in *.
  split; [nia|].
  intros j Hj. destruct (decide (q <= j)) as [|Hlt]; [done|]. nia.
Qed.

Lemma count_step n len :
  0 < n -> 0 < len ->
  (len + n - 1) / n = S ((len - n + n - 1) / n).
Proof.
  intros Hn Hlen. destruct (decide (n <= len)) as [Hle|Hlt].
  - replace (len + n - 1) with ((len - n + n - 1) + 1 * n) by lia.
    rewrite Nat.div_add by lia. lia.
  - replace (len - n + n - 1) with (n - 1) by lia.
    rewrite (Nat.div_small (n - 1)) by lia.
    replace (len + n - 1) with ((len - 1) + 1 * n) by lia.
    rewrite Nat.div_add by lia. rewrite Nat.div_small by lia. done.
Qed.

Lemma slices_nil n : 0 < n -> slices n (@nil A) = [].
Proof.
  intros Hn. rewrite slices_eq. simpl.
  rewrite Nat.div_small by lia. done.
Qed.

(** A non-empty list gives its first [n] elements, then the slices of
    the rest. *)
Lemma slices_cons n s :
  0 < n -> s <> [] ->
  slices n s = take n s :: slices n (drop n s).
Proof.
  intros Hn Hs. rewrite !slices_eq.
  assert (0 < length s) by (destruct s; simpl; [done | lia]).
  rewrite length_drop, (count_step n (length s)) by done.
  rewrite <- cons_seq, <- List.seq_shift. cbn [map].
  rewrite List.map_map. f_equal. apply List.map_ext. intros k.
  rewrite drop_drop. do 2 f_equal; lia.
Qed.

Lemma concat_slices n s : 0 < n -> concat (slices n s) = s.
Proof.
  intros Hn. remember (length s) as len eqn:Hlen.
  revert s Hlen. induction (lt_wf len) as [len _ IH]. intros s ->.
  destruct s as [|a s].
  - by rewrite slices_nil.
  - rewrite slices_cons by done. cbn [concat].
    rewrite (IH (length (drop n (a :: s)))); [apply take_drop | | done].
    rewrite length_drop. simpl. lia.
Qed.

Lemma slices_bounded n s : Forall (fun c => length c <= n) (slices n s).
Proof.
  rewrite slices_eq. apply Forall_forall. intros c Hc.
  apply list_elem_of_In, List.in_map_iff in Hc as (k & <- & _).
  rewrite length_take. lia.
Qed.

Lemma slices_lookup n s k c :
  slices n s !! k = Some c -> c = take n (drop (k * n) s).
Proof.
  rewrite slices_eq.
  change (map ?f ?l) with (f <$> l). rewrite list_lookup_fmap.
  intros Hk. apply fmap_Some in Hk as (j & Hj & ->).
  apply lookup_seq in Hj as [-> _]. done.
Qed.
(** No slice is empty. *)
Lemma slices_nonempty n (s : list A) :
  0 < n -> Forall (fun c => c <> []) (slices n s).
Proof.
  intros Hn. remember (length s) as len eqn:Hlen.
  revert s Hlen. induction (lt_wf len) as [len _ IH]. intros s ->.
  destruct s as [|a s].
  - rewrite slices_nil by done. constructor.
  - rewrite slices_cons by done. constructor.
    + destruct n; [lia | done].
    + apply (IH (length (drop n (a :: s)))); [|done].
      rewrite length_drop. cbn [length]. lia.
Qed.
(** The first [k] slices together are the first [k * n] elements. *)
Lemma concat_take_slices n k (s : list A) :
  0 < n -> concat (take k (slices n s)) = take (k * n) s.
Proof.
  intros Hn. revert s. induction k as [|k IH]; intros s; [done|].
  destruct s as [|a s].
  - rewrite slices_nil by done. simpl. by destruct (n + k * n).
  - rewrite slices_cons by done. cbn [take firstn concat].
    rewrite IH. apply take_take_drop.
Qed.
End SliceFacts.


(** ** The summarizer *)

(** C5. Chunking partitions the prompt: for every prompt (of any length),
    the chunks concatenated in order are the prompt, every chunk has at
    most 1200 characters, and every chunk is the slice of the prompt that
    starts where the chunks before it end and stops where it ends itself,
    so the chunks lie left to right without overlap and without gap. *)
Theorem chunks_partition (prompt : str) :
  concat (chunks_of prompt) = prompt
  /\ Forall (fun c => length c <= 1200) (chunks_of prompt)
  /\ forall k c,
       chunks_of prompt !! k = Some c ->
       let start := length (concat (take k (chunks_of prompt))) in
       c = slice prompt start (start + length c).
Proof.
  unfold chunks_of, max_chars. split; [|split].
  - apply concat_slices. lia.
  - apply slices_bounded.
  - intros k c Hk. cbv zeta.
    rewrite concat_take_slices, slice_window by lia.
    apply slices_lookup in Hk as Hc.
    apply lookup_lt_Some in Hk.
    pose proof (slices_count 1200 prompt ltac:(lia)) as [_ Hleast].
    cbv zeta in Hleast.
    assert (k * 1200 < length prompt) as Hlt.
    { destruct (decide (k * 1200 < length prompt)); [done|].
      specialize (Hleast k ltac:(lia)). lia. }
    rewrite length_take, Nat.min_l by lia.
    subst c. set (rest := drop (k * 1200) prompt).
    rewrite length_take.
    destruct (decide (1200 <= length rest)).
    + by rewrite Nat.min_l.
    + rewrite Nat.min_r by lia. by rewrite !take_ge by lia.
Qed.

Lemma lstrip_blank (s : str) : blank s -> lstrip s = [].
Proof.
  induction 1 as [|c s Hc _ IH]; [done|]. simpl. by rewrite Hc.
Qed.

Lemma lstrip_head (s : str) c r : lstrip s = c :: r -> isspace c = false.
Proof.
  induction s as [|a s IH]; [done|]. simpl.
  destruct (isspace a) eqn:Ha; [done|]. by intros [= <- _].
Qed.

Lemma lstrip_nil (s : str) : lstrip s = [] -> blank s.
Proof.
  induction s as [|a s IH]; [constructor|]. simpl.
  destruct (isspace a) eqn:Ha; [|done].
  intros Hs. constructor; [done | by apply IH].
Qed.

Lemma strip_blank (s : str) : blank s -> strip s = [].
Proof.
  intros Hs. unfold strip, rstrip. by rewrite (lstrip_blank s Hs).
Qed.

(** A transcript is empty after trimming exactly when it consists of
    whitespace only. *)
Lemma strip_nil_iff (s : str) : strip s = [] <-> blank s.
Proof.
  split; [|apply strip_blank].
  unfold strip, rstrip. intros Hs.
  apply (f_equal reverse) in Hs. rewrite reverse_involutive in Hs.
  change (reverse []) with (@nil N) in Hs.
  apply lstrip_nil in Hs. unfold blank in Hs.
  rewrite Forall_reverse in Hs.
  apply lstrip_nil. destruct (lstrip s) as [|c r] eqn:Hl; [done|].
  apply lstrip_head in Hl. apply Forall_cons in Hs as [Hc _]. congruence.
Qed.

(** *** Trimming *)

Lemma lstrip_split (s : str) : exists pre, s = pre ++ lstrip s /\ blank pre.
Proof.
  induction s as [|a s (pre & Hs & Hpre)];
    [exists []; split; [done | constructor]|].
  cbn [lstrip]. destruct (isspace a) eqn:Ha.
  - exists (a :: pre). split; [cbn [app]; by rewrite <- Hs | by constructor].
  - exists []. split; [done | constructor].
Qed.

Lemma rstrip_split (s : str) : exists suf, s = rstrip s ++ suf /\ blank suf.
Proof.
  destruct (lstrip_split (reverse s)) as (pre & Hs & Hpre).
  exists (reverse pre). split.
  - apply (f_equal reverse) in Hs.
    by rewrite reverse_involutive, reverse_app in Hs.
  - unfold blank. by rewrite Forall_reverse.
Qed.

Lemma lstrip_fixed (s : str) :
  (forall c, head s = Some c -> isspace c = false) -> lstrip s = s.
Proof.
  destruct s as [|a s]; [done|]. intros Hhead. cbn [lstrip].
  by rewrite (Hhead a).
Qed.

Lemma lstrip_head_space (s : str) c :
  head (lstrip s) = Some c -> isspace c = false.
Proof.
  destruct (lstrip s) as [|a r] eqn:Hl; [done|]. intros [= <-].
  by apply (lstrip_head s a r).
Qed.

Lemma rstrip_last_space (s : str) c :
  last (rstrip s) = Some c -> isspace c = false.
Proof.
  unfold rstrip. rewrite last_reverse. apply lstrip_head_space.
Qed.

Lemma rstrip_head (s : str) c : head (rstrip s) = Some c -> head s = Some c.
Proof.
  destruct (rstrip_split s) as (suf & Hs & _). rewrite Hs at 2.
  by destruct (rstrip s).
Qed.

(** What [strip] gives neither starts nor ends with whitespace. *)
Lemma strip_trimmed (s : str) : trimmed (strip s).
Proof.
  split; intros c Hc.
  - apply rstrip_head in Hc. by apply (lstrip_head_space s).
  - by apply (rstrip_last_space (lstrip s)).
Qed.

(** [strip] leaves a string alone that has no whitespace at its ends. *)
Lemma strip_fixed (s : str) : trimmed s -> strip s = s.
Proof.
  intros [Hhead Hlast]. unfold strip. rewrite (lstrip_fixed s Hhead).
  unfold rstrip. rewrite lstrip_fixed; [apply reverse_involutive|].
  intros c. rewrite head_reverse. apply Hlast.
Qed.

Lemma strip_strip (s : str) : strip (strip s) = strip s.
Proof. apply strip_fixed, strip_trimmed. Qed.

Lemma blank_app (a b : str) : blank (a ++ b) <-> blank a /\ blank b.
Proof. apply Forall_app. Qed.

Lemma blank_running (parts : list str) :
  blank (running parts) <-> Forall blank parts.
Proof.
  induction parts as [|p parts IH]; [by split; constructor|].
  unfold running. cbn [map concat]. fold (running parts).
  rewrite !blank_app, Forall_cons, IH.
  assert (blank (lit " ")) by (repeat constructor). tauto.
Qed.

(** [strip] removes whitespace from the two ends and nothing else. *)
Lemma strip_split (s : str) :
  exists pre suf, s = pre ++ strip s ++ suf /\ blank pre /\ blank suf.
Proof.
  destruct (lstrip_split s) as (pre & Hs & Hpre).
  destruct (rstrip_split (lstrip s)) as (suf & Hl & Hsuf).
  exists pre, suf. unfold strip. by rewrite <- Hl.
Qed.

Section SummarizerFacts.
Context {G : Type} `{Pipeline G}.

(** One turn of the loop. *)
Lemma summarize_chunks_cons c cs acc (w : sworld G) :
  summarize_chunks (c :: cs) acc w
  = let '(s1, r) := summarizer (model w) c 160 60 false in
    let w1 := SWorld s1 (slog w ++ [summarize_event c]) in
    match summary_of r with
    | inl e => (w1, Raised e)
    | inr o => summarize_chunks cs (acc ++ [o]) w1
    end.
Proof.
  cbn [summarize_chunks].
  unfold bind, call_summarizer, first_item, getitem, ret, raise, summary_of.
  destruct (summarizer (model w) c 160 60 false) as [s1 [e|[|d out]]];
    try done.
  by destruct (d !! lit "summary_text").
Qed.

(** One turn of the loop, when the model answers the chunk. *)
Lemma summarize_chunks_step s c cs s1 r o acc log :
  summarizer s c 160 60 false = (s1, r) ->
  summary_of r = inr o ->
  summarize_chunks (c :: cs) acc (SWorld s log)
  = summarize_chunks cs (acc ++ [o]) (SWorld s1 (log ++ [summarize_event c])).
Proof.
  intros Hcall Ho. rewrite summarize_chunks_cons. cbn [model slog].
  by rewrite Hcall, Ho.
Qed.

(** One turn of the loop, when the model fails on the chunk. *)
Lemma summarize_chunks_raise s c cs s1 r e acc log :
  summarizer s c 160 60 false = (s1, r) ->
  summary_of r = inl e ->
  summarize_chunks (c :: cs) acc (SWorld s log)
  = (SWorld s1 (log ++ [summarize_event c]), Raised e).
Proof.
  intros Hcall He. rewrite summarize_chunks_cons. cbn [model slog].
  by rewrite Hcall, He.
Qed.

Lemma summarize_chunks_generates s cs s' outs :
  generates s cs s' outs ->
  forall acc log,
    summarize_chunks cs acc (SWorld s log)
    = (SWorld s' (log ++ map summarize_event cs), Returned (acc ++ outs)).
Proof.
  induction 1 as [s|s c cs s1 r o s' outs Hcall Ho _ IH]; intros acc log.
  - simpl. by rewrite !app_nil_r.
  - rewrite (summarize_chunks_step _ _ _ _ _ _ _ _ Hcall Ho), IH.
    cbn [map]. by rewrite <- !app_assoc.
Qed.

Lemma summarize_chunks_fails s cs k e s' :
  fails_at s cs k e s' ->
  forall acc log,
    summarize_chunks cs acc (SWorld s log)
    = (SWorld s' (log ++ map summarize_event (take (S k) cs)), Raised e).
Proof.
  induction 1 as [s c cs s' r e Hcall He
                 |s c cs s1 r o k e s' Hcall Ho _ IH]; intros acc log.
  - by rewrite (summarize_chunks_raise _ _ _ _ _ _ _ _ Hcall He).
  - rewrite (summarize_chunks_step _ _ _ _ _ _ _ _ Hcall Ho), IH.
    cbn [take firstn map]. by rewrite <- !app_assoc.
Qed.


(** The guard of [summarize_text_offline] lets exactly the transcripts
    through that are not empty after trimming. *)
Lemma guard_false (text : str) :
  strip text <> [] ->
  bool_decide (text = []) || bool_decide (strip text = []) = false.
Proof.
  intros Hs. rewrite (bool_decide_eq_false_2 (strip text = [])) by done.
  rewrite bool_decide_eq_false_2; [done|]. by intros ->.
Qed.
End SummarizerFacts.

Section SummarizerTheorems.
Context {G : Type} `{Pipeline G}.

(** C7. For every transcript that is empty or consists of whitespace
    only, [summarize_text_offline] returns the pair [(None, message)]
    of the empty-transcript error at once: the world it is called in is
    left as it is, so the model is not invoked. *)
Theorem summarize_empty_transcript (text : str) (w : sworld G) :
  blank text ->
  summarize_text_offline text w = (w, Returned (None, Some EmptyTranscript)).
Proof.
  intros Hb. unfold summarize_text_offline.
  rewrite (bool_decide_eq_true_2 (strip text = [])) by by apply strip_blank.
  by rewrite orb_true_r.
Qed.


(** C2, as the code has it. For every transcript that is not empty after
    trimming, when the model fails on some chunk, having answered the
    chunks before it: [summarize_text_offline] returns no pair at all;
    the exception of that chunk is raised out of it, and the model has
    been called on the chunks up to that one and on no later chunk.  In
    particular no summary of the chunks that succeeded is returned. *)
Theorem summarize_failure_raises (text : str) (s s' : G) (log : list sevent)
    (k : nat) (e : exn) :
  strip text <> [] ->
  fails_at s (chunks_of (prompt_of text)) k e s' ->
  summarize_text_offline text (SWorld s log)
  = (SWorld s' (log ++ map summarize_event
                           (take (S k) (chunks_of (prompt_of text)))),
     Raised e).
Proof.
  intros Hs Hfail. unfold summarize_text_offline.
  rewrite guard_false by done. unfold bind.
  by rewrite (summarize_chunks_fails _ _ _ _ _ Hfail).
Qed.

(** Without sampling, the outcome of the loop does not depend on the
    state the model is in. *)
Lemma summarize_chunks_stateless :
  (forall s1 s2 chunk mx mn,
      snd (summarizer s1 chunk mx mn false)
      = snd (summarizer s2 chunk mx mn false)) ->
  forall cs acc w1 w2,
    snd (summarize_chunks cs acc w1) = snd (summarize_chunks cs acc w2).
Proof.
  intros Hgreedy. induction cs as [|c cs IH]; intros acc w1 w2; [done|].
  rewrite !summarize_chunks_cons.
  specialize (Hgreedy (model w1) (model w2) c 160 60).
  destruct (summarizer (model w1) c 160 60 false) as [s1 r1].
  destruct (summarizer (model w2) c 160 60 false) as [s2 r2].
  cbn [snd] in Hgreedy. subst r2. cbv zeta.
  destruct (summary_of r1); [done | apply IH].
Qed.

(** C9. Determinism: for a model whose answer, when it is called without
    sampling, depends on its input only, two calls of
    [summarize_text_offline] on the same transcript have the same
    outcome, whatever state the model is in at each call; in particular
    when the second call follows the first. *)
Theorem summarize_deterministic (text : str) :
  (forall s1 s2 chunk mx mn,
      snd (summarizer s1 chunk mx mn false)
      = snd (summarizer s2 chunk mx mn false)) ->
  (forall w1 w2,
      snd (summarize_text_offline text w1)
      = snd (summarize_text_offline text w2))
  /\ forall w,
      snd (summarize_text_offline text (fst (summarize_text_offline text w)))
      = snd (summarize_text_offline text w).
Proof.
  intros Hgreedy.
  assert (forall w1 w2,
             snd (summarize_text_offline text w1)
             = snd (summarize_text_offline text w2)) as Hany.
  { intros w1 w2. unfold summarize_text_offline.
    destruct (bool_decide (text = []) || bool_decide (strip text = []));
      [done|].
    unfold bind, ret.
    pose proof (summarize_chunks_stateless Hgreedy
                  (chunks_of (prompt_of text)) [] w1 w2) as Heq.
    destruct (summarize_chunks (chunks_of (prompt_of text)) [] w1)
      as [w1' [v1|e1|]];
    destruct (summarize_chunks (chunks_of (prompt_of text)) [] w2)
      as [w2' [v2|e2|]]; cbn [snd] in *; congruence. }
  split; [exact Hany | intros w; apply Hany].
Qed.
End SummarizerTheorems.

(** *** The summarizer on concrete inputs *)

Lemma summarize_empty_transcript_witness :
  blank (lit "   ")
  /\ @summarize_text_offline nat counting_pipeline (lit "   ") (SWorld 0 [])
     = (SWorld 0 [], Returned (None, Some EmptyTranscript))
  /\ @summarize_text_offline nat counting_pipeline (lit "") (SWorld 0 [])
     = (SWorld 0 [], Returned (None, Some EmptyTranscript)).
Proof.
  assert (blank (lit "   ")) as Hspaces by (repeat constructor).
  assert (blank (lit "")) as Hempty by constructor.
  split; [exact Hspaces|]. split.
  - exact (@summarize_empty_transcript nat counting_pipeline _ _ Hspaces).
  - exact (@summarize_empty_transcript nat counting_pipeline _ _ Hempty).
Defined.

Lemma long_text_not_blank : strip long_text <> [].
Proof. vm_compute. discriminate. Qed.



Lemma flaky_pipeline_fails :
  @fails_at nat flaky_pipeline 0 (chunks_of (prompt_of long_text))
    1 (Exception "CUDA out of memory") 2.
Proof.
  let cs := eval vm_compute in (chunks_of (prompt_of long_text)) in
  change (chunks_of (prompt_of long_text)) with cs.
  eapply fails_later; [reflexivity | vm_compute; reflexivity |].
  eapply fails_here; [reflexivity | reflexivity].
Qed.

Lemma summarize_failure_raises_witness :
  strip long_text <> []
  /\ @fails_at nat flaky_pipeline 0 (chunks_of (prompt_of long_text))
       1 (Exception "CUDA out of memory") 2
  /\ @summarize_text_offline nat flaky_pipeline long_text (SWorld 0 [])
     = (SWorld 2 (map summarize_event (chunks_of (prompt_of long_text))),
        Raised (Exception "CUDA out of memory")).
Proof.
  split; [exact long_text_not_blank|].
  split; [exact flaky_pipeline_fails|].
  exact (@summarize_failure_raises nat flaky_pipeline long_text 0 2 [] 1 _
           long_text_not_blank flaky_pipeline_fails).
Defined.

(** C2, as stated, fails.  The model answers the first chunk of this
    transcript and fails on the second; [summarize_text_offline] then
    returns no pair, neither [(None, error)] nor any other: the exception
    is raised out of it. *)
Lemma summarize_failure_not_returned :
  @fails_at nat flaky_pipeline 0 (chunks_of (prompt_of long_text))
    1 (Exception "CUDA out of memory") 2
  /\ forall result,
       snd (@summarize_text_offline nat flaky_pipeline long_text (SWorld 0 []))
       <> Returned result.
Proof.
  split; [exact flaky_pipeline_fails|].
  intros result. vm_compute. discriminate.
Qed.

Lemma summarize_deterministic_witness :
  (forall s1 s2 chunk mx mn,
      snd (@summarizer nat counting_pipeline s1 chunk mx mn false)
      = snd (@summarizer nat counting_pipeline s2 chunk mx mn false))
  /\ snd (@summarize_text_offline nat counting_pipeline long_text
            (fst (@summarize_text_offline nat counting_pipeline long_text
                    (SWorld 0 []))))
     = snd (@summarize_text_offline nat counting_pipeline long_text
              (SWorld 0 [])).
Proof.
  assert (forall s1 s2 chunk mx mn,
             snd (@summarizer nat counting_pipeline s1 chunk mx mn false)
             = snd (@summarizer nat counting_pipeline s2 chunk mx mn false))
    as Hgreedy by (intros; reflexivity).
  split; [exact Hgreedy|].
  apply (@summarize_deterministic nat counting_pipeline long_text Hgreedy).
Defined.

(** ** The transcriber *)

Section TranscriberFacts.
Context {R : Type} `{Recognizer R}.

(** One turn of the loop. *)
Lemma decode_loop_S n (rec : R) text (w : tworld) :
  decode_loop (S n) rec text w
  = let a := audio w in
    let data := take (4000 * framesize a) (unread a) in
    let w1 := TWorld (WaveRead (source a)
                        (drop (4000 * framesize a) (unread a)) (closed a))
                     (tlog w ++ [EvReadFrames 4000 data]) in
    let w2 := emit (EvAcceptWaveform data) w1 in
    if length data =? 0 then (w1, Returned (rec, text))
    else
      match AcceptWaveform rec data with
      | inl e => (w2, Raised e)
      | inr (rec1, false) => decode_loop n rec1 text w2
      | inr (rec1, true) =>
          match Result rec1 with
          | inl e => (emit EvResult w2, Raised e)
          | inr (rec2, d) =>
              decode_loop n rec2
                (text ++ dict_get d (lit "text") (lit "") ++ lit " ")
                (emit EvResult w2)
          end
      end.
Proof.
  cbn [decode_loop]. unfold bind at 1. unfold readframes. cbv zeta.
  destruct (length (take (4000 * framesize (audio w)) (unread (audio w))) =? 0);
    [done|].
  unfold bind at 1. unfold engine at 1.
  destruct (AcceptWaveform rec _) as [e|[rec1 [|]]]; [done| |done].
  unfold bind at 1. unfold engine at 1.
  by destruct (Result rec1) as [e|[rec2 d]].
Qed.

Lemma running_cons part (parts : list str) :
  running (part :: parts) = part ++ lit " " ++ running parts.
Proof. unfold running. cbn [map concat]. by rewrite <- app_assoc. Qed.

(** The loop on a mono 16-bit handle feeds the batches of the unread
    data in order; it ends with the read that returns no byte, or with
    the first call on the recognizer that raises. *)
Lemma decode_loop_feed (file : wav_file) :
  nchannels file = 1%Z -> sampwidth file = 2%Z ->
  forall n data (rec : R) text shut log,
    length data < n ->
    exists rest,
      decode_loop n rec text (TWorld (WaveRead file data shut) log)
      = match feed rec (slices (4000 * 2) data) with
        | (evs, inl e) =>
            (TWorld (WaveRead file rest shut) (log ++ evs), Raised e)
        | (evs, inr (rec', parts)) =>
            (TWorld (WaveRead file [] shut)
               (log ++ evs ++ [EvReadFrames 4000 []]),
             Returned (rec', text ++ running parts))
        end.
Proof.
  intros Hch Hsw.
  assert (exists k, 4000 * 2 = k /\ 0 < k) as (k & Hk & Hpos)
    by (eexists; split; [reflexivity | lia]).
  rewrite Hk.
  induction n as [|n IH]; intros data rec text shut log Hn; [lia|].
  rewrite decode_loop_S. cbn [audio tlog source unread closed].
  unfold framesize. cbn [source]. rewrite Hch, Hsw.
  change (Z.to_nat (1 * 2)) with 2. rewrite Hk.
  destruct data as [|b data].
  { exists []. rewrite slices_nil by done. rewrite take_nil, drop_nil.
    cbn [length Nat.eqb feed running map concat app].
    by rewrite app_nil_r. }
  rewrite slices_cons by done.
  set (batch := take k (b :: data)).
  set (rest := drop k (b :: data)).
  assert ((length batch =? 0) = false) as ->.
  { apply Nat.eqb_neq. subst batch. rewrite length_take. cbn [length]. lia. }
  assert (length rest < n) as Hrest.
  { subst rest. rewrite length_drop. cbn [length] in *. lia. }
  cbn [feed]. unfold emit. cbn [audio tlog].
  destruct (AcceptWaveform rec batch) as [e|[rec1 [|]]].
  - exists rest. cbn [app]. by rewrite <- app_assoc.
  - destruct (Result rec1) as [e|[rec2 d]].
    + exists rest. cbn [app]. by rewrite <- !app_assoc.
    + destruct (IH rest rec2
                  (text ++ dict_get d (lit "text") (lit "") ++ lit " ")
                  shut (((log ++ [EvReadFrames 4000 batch])
                          ++ [EvAcceptWaveform batch]) ++ [EvResult]) Hrest)
        as [rest' ->].
      exists rest'.
      destruct (feed rec2 (slices k rest)) as [evs [e|[rec' parts]]].
      * cbn [app]. by rewrite <- !app_assoc.
      * rewrite running_cons. cbn [app]. by rewrite <- !app_assoc.
  - destruct (IH rest rec1 text shut
                ((log ++ [EvReadFrames 4000 batch])
                   ++ [EvAcceptWaveform batch]) Hrest) as [rest' ->].
    exists rest'.
    destruct (feed rec1 (slices k rest)) as [evs [e|[rec' parts]]].
    * cbn [app]. by rewrite <- !app_assoc.
    * cbn [app]. by rewrite <- !app_assoc.
Qed.
(** The run of [transcribe_audio] on a file of the required format. *)
Lemma transcribe_audio_valid (file : wav_file) :
  valid_format file ->
  let opened := [EvOpen; EvRecognizer (framerate file)] in
  exists rest,
    transcribe_audio file
    = match KaldiRecognizer (framerate file) with
      | inl e => (TWorld (WaveRead file (frames file) false) opened, Raised e)
      | inr rec =>
          match feed rec (batches file) with
          | (evs, inl e) =>
              (TWorld (WaveRead file rest false) (opened ++ evs), Raised e)
          | (evs, inr (rec1, parts)) =>
              let fed := opened ++ evs ++ [EvReadFrames 4000 []] in
              match FinalResult rec1 with
              | inl e =>
                  (TWorld (WaveRead file [] false) (fed ++ [EvFinalResult]),
                   Raised e)
              | inr (rec2, d) =>
                  (TWorld (WaveRead file [] true)
                     (fed ++ [EvFinalResult; EvClose]),
                   Returned
                     (Some (strip (running parts
                                     ++ dict_get d (lit "text") (lit ""))),
                      None))
              end
          end
      end.
Proof.
  intros (Hch & Hsw & Hlo & Hhi) opened.
  unfold transcribe_audio, transcribe_body, wave_open.
  unfold bind, getnchannels, getsampwidth, getframerate.
  cbn [audio source nchannels sampwidth framerate].
  rewrite Hch, Hsw.
  assert ((8000 <=? framerate file)%Z && (framerate file <=? 48000)%Z = true)
    as -> by (apply andb_true_intro; split; by apply Z.leb_le).
  cbn [Z.eqb Pos.eqb negb orb].
  unfold engine at 1, emit. cbn [audio tlog app source unread closed].
  subst opened.
  destruct (KaldiRecognizer (framerate file)) as [e|rec]; [by exists []|].
  destruct (decode_loop_feed file Hch Hsw (S (length (frames file)))
              (frames file) rec (lit "") false
              [EvOpen; EvRecognizer (framerate file)] ltac:(lia))
    as [rest ->].
  exists rest. unfold batches.
  destruct (feed rec (slices (4000 * 2) (frames file)))
    as [evs [e|[rec1 parts]]]; [done|].
  cbv zeta. unfold engine, emit, close, ret. cbn [audio tlog source unread closed].
  change (lit "" ++ ?t) with t.
  destruct (FinalResult rec1) as [e|[rec2 d]];
    cbn [audio tlog source unread closed]; by rewrite <- !app_assoc.
Qed.
End TranscriberFacts.

Section TranscriberTheorems.
Context {R : Type} `{Recognizer R}.

(** When every call succeeds, the reads of [feed] are one read of 4000
    frames per batch, in order. *)
Lemma feed_reads (bs : list bytes) :
  forall (rec rec' : R) evs parts,
    feed rec bs = (evs, inr (rec', parts)) ->
    reads_of evs = map (fun b => (4000, b)) bs.
Proof.
  induction bs as [|b bs IH]; intros rec rec' evs parts.
  - cbn [feed]. by intros [= <- _ _].
  - cbn [feed].
    destruct (AcceptWaveform rec b) as [e|[rec1 [|]]]; [done| |].
    + destruct (Result rec1) as [e|[rec2 d]]; [done|].
      destruct (feed rec2 bs) as [evs' [e|[rec3 parts']]] eqn:Hfeed; [done|].
      intros [= <- _ _]. cbn [app map]. unfold reads_of. cbn [omap list_omap].
      f_equal. by apply (IH rec2 rec3 evs' parts').
    + destruct (feed rec1 bs) as [evs' res] eqn:Hfeed.
      intros [= <- ->]. cbn [app map]. unfold reads_of. cbn [omap list_omap].
      f_equal. by apply (IH rec1 rec' evs' parts).
Qed.

(** The run of [transcribe_audio] on a file that is not of the required
    format. *)
Lemma transcribe_audio_invalid (file : wav_file) :
  nchannels file <> 1%Z \/ sampwidth file <> 2%Z
  \/ (framerate file < 8000)%Z \/ (48000 < framerate file)%Z ->
  transcribe_audio file
  = (TWorld (WaveRead file (frames file) true) [EvOpen; EvClose],
     Returned (None, Some InvalidAudioFormat)).
Proof.
  intros Hbad.
  unfold transcribe_audio, transcribe_body, wave_open.
  unfold bind at 1 2 3. unfold getnchannels, getsampwidth, getframerate.
  cbn [audio source].
  assert (negb (nchannels file =? 1)%Z || negb (sampwidth file =? 2)%Z
          || negb ((8000 <=? framerate file)%Z && (framerate file <=? 48000)%Z)
          = true) as ->; [|done].
  destruct (Z.eqb_spec (nchannels file) 1); [|done].
  destruct (Z.eqb_spec (sampwidth file) 2); [|done].
  destruct (Z.leb_spec 8000 (framerate file));
    destruct (Z.leb_spec (framerate file) 48000); cbn; try done; lia.
Qed.

Lemma wave_accepts_open (file : wav_file) :
  wave_accepts file -> wave_refusal file = None.
Proof.
  intros ([Hch _] & [Hsw _] & _). unfold wave_refusal.
  destruct (Z.eqb_spec (sampwidth file) 0); [lia|].
  destruct (Z.eqb_spec (nchannels file) 0); [lia | done].
Qed.

(** C4, as the code has it. For every audio file that [wave.open] accepts
    and whose channel count is not 1, or whose sample width is not 2
    bytes, or whose sample rate is outside [8000, 48000]:
    [transcribe_audio] closes the handle and returns the pair
    [(None, message)] of the format error; the handle was opened and
    closed and nothing else was called, so no recognizer was created and
    no frame was read or fed. *)
Theorem transcribe_rejects_format (file : wav_file) :
  wave_accepts file ->
  nchannels file <> 1%Z \/ sampwidth file <> 2%Z
  \/ (framerate file < 8000)%Z \/ (48000 < framerate file)%Z ->
  let w := TWorld (WaveRead file (frames file) true) [EvOpen; EvClose] in
  transcribe_container file
  = (Some w, Returned (None, Some InvalidAudioFormat))
  /\ closed (audio w) = true
  /\ reads_of (tlog w) = []
  /\ (forall rate, EvRecognizer rate ∉ tlog w).
Proof.
  intros Hopen Hbad w. unfold transcribe_container.
  rewrite (wave_accepts_open file Hopen).
  rewrite (transcribe_audio_invalid file Hbad).
  split; [done|]. split; [done|]. split; [done|].
  intros rate Hin. subst w. cbn [tlog] in Hin.
  apply list_elem_of_In in Hin. cbn in Hin.
  destruct Hin as [?|[?|[]]]; discriminate.
Qed.

(** C8. For every audio file of the required format, when the recognizer
    is created, answers every batch and gives its final result: the data
    is read in batches of 4000 frames, which together are all of it, and
    the reads go on until one returns no byte; the running transcript is
    the finalized text of every batch with an utterance boundary, each
    followed by one space, and then the final result; and
    [transcribe_audio] closes the handle and returns that transcript,
    trimmed: what is returned has no whitespace at either end, and it is
    the running transcript without a whitespace prefix and a whitespace
    suffix. *)
Theorem transcribe_decodes (file : wav_file) (rec0 rec1 rec2 : R)
    (evs : list tevent) (parts : list str) (d : dict) :
  valid_format file ->
  KaldiRecognizer (framerate file) = inr rec0 ->
  feed rec0 (batches file) = (evs, inr (rec1, parts)) ->
  FinalResult rec1 = inr (rec2, d) ->
  let log := [EvOpen; EvRecognizer (framerate file)] ++ evs
             ++ [EvReadFrames 4000 []; EvFinalResult; EvClose] in
  let text := running parts ++ dict_get d (lit "text") (lit "") in
  concat (batches file) = frames file
  /\ Forall (fun b => b <> [] /\ length b <= 4000 * 2) (batches file)
  /\ reads_of log = map (fun b => (4000, b)) (batches file ++ [[]])
  /\ transcribe_audio file
     = (TWorld (WaveRead file [] true) log,
        Returned (Some (strip text), None))
  /\ trimmed (strip text)
  /\ exists pre suf, text = pre ++ strip text ++ suf /\ blank pre /\ blank suf.
Proof.
  intros Hvalid Hnew Hfeed Hfinal log text.
  assert (0 < 4000 * 2) as Hpos by lia.
  split; [by apply concat_slices|]. split; [|split; [|split; [|split]]].
  - apply Forall_and. split; [by apply slices_nonempty | apply slices_bounded].
  - subst log. unfold reads_of. cbn [app omap list_omap].
    rewrite omap_app. change (omap _ evs) with (reads_of evs).
    rewrite (feed_reads _ _ _ _ _ Hfeed). cbn [omap list_omap].
    change (map ?f ?l) with (f <$> l). by rewrite fmap_app.
  - destruct (transcribe_audio_valid file Hvalid) as [rest ->].
    rewrite Hnew, Hfeed, Hfinal. subst log. cbv zeta.
    by rewrite <- !app_assoc.
  - apply strip_trimmed.
  - apply strip_split.
Qed.

(** C3, as the code has it. For every audio file of the required format,
    when a call on the recognizer in the decoding loop fails:
    [transcribe_audio] returns no pair at all; the exception of that
    call is raised out of it, and the decoding stops at that call: no
    later batch is read, no final result is asked for, and no transcript
    is produced. *)
Theorem transcribe_recognizer_error_raises (file : wav_file) (rec0 : R)
    (evs : list tevent) (e : exn) :
  valid_format file ->
  KaldiRecognizer (framerate file) = inr rec0 ->
  feed rec0 (batches file) = (evs, inl e) ->
  snd (transcribe_audio file) = Raised e
  /\ tlog (fst (transcribe_audio file))
     = [EvOpen; EvRecognizer (framerate file)] ++ evs.
Proof.
  intros Hvalid Hnew Hfeed.
  destruct (transcribe_audio_valid file Hvalid) as [rest ->].
  by rewrite Hnew, Hfeed.
Qed.

Lemma valid_format_dec (file : wav_file) :
  valid_format file
  \/ (nchannels file <> 1%Z \/ sampwidth file <> 2%Z
      \/ (framerate file < 8000)%Z \/ (48000 < framerate file)%Z).
Proof. unfold valid_format. lia. Qed.

(** The loop bound of [transcribe_audio] is never reached. *)
Lemma transcribe_audio_total (file : wav_file) :
  snd (transcribe_audio file) <> Exhausted.
Proof.
  destruct (valid_format_dec file) as [Hvalid|Hbad].
  - destruct (transcribe_audio_valid file Hvalid) as [rest ->].
    destruct (KaldiRecognizer (framerate file)) as [e|rec]; [done|].
    destruct (feed rec (batches file)) as [evs [e|[rec1 parts]]]; [done|].
    cbv zeta. by destruct (FinalResult rec1) as [e|[rec2 d]].
  - by rewrite transcribe_audio_invalid.
Qed.

(** X6. At the exit of [transcribe_audio] the handle is closed when a pair
    is returned, and only then: on every path that raises it is left
    open. *)
Lemma handle_closed_iff_returned (file : wav_file) :
  closed (audio (fst (transcribe_audio file))) = true
  <-> exists result, snd (transcribe_audio file) = Returned result.
Proof.
  destruct (valid_format_dec file) as [Hvalid|Hbad].
  - destruct (transcribe_audio_valid file Hvalid) as [rest ->].
    destruct (KaldiRecognizer (framerate file)) as [e|rec].
    { cbn. split; [done | by intros [? ?]]. }
    destruct (feed rec (batches file)) as [evs [e|[rec1 parts]]].
    { cbn. split; [done | by intros [? ?]]. }
    cbv zeta. destruct (FinalResult rec1) as [e|[rec2 d]].
    + cbn. split; [done | by intros [? ?]].
    + cbn [fst snd audio closed]. split; [eauto | done].
  - rewrite transcribe_audio_invalid by done.
    cbn [fst snd audio closed]. split; [eauto | done].
Qed.
End TranscriberTheorems.

(** *** The transcriber on concrete inputs *)

Lemma two_batches_valid : valid_format two_batches.
Proof. unfold valid_format. cbn. lia. Qed.

Lemma short_clip_valid : valid_format short_clip.
Proof. unfold valid_format. cbn. lia. Qed.

Lemma stereo_accepted : wave_accepts (stereo44k (silence 8)).
Proof. unfold wave_accepts. cbn. lia. Qed.

Lemma transcribe_rejects_format_witness :
  wave_accepts (stereo44k (silence 8))
  /\ nchannels (stereo44k (silence 8)) <> 1%Z
  /\ @transcribe_container scripted hello_engine (stereo44k (silence 8))
     = (Some (TWorld (WaveRead (stereo44k (silence 8)) (silence 8) true)
                [EvOpen; EvClose]),
        Returned (None, Some InvalidAudioFormat)).
Proof.
  assert (nchannels (stereo44k (silence 8)) <> 1%Z) as Hch
    by (cbn; lia).
  split; [exact stereo_accepted|]. split; [exact Hch|].
  exact (proj1 (@transcribe_rejects_format scripted hello_engine
                  (stereo44k (silence 8)) stereo_accepted (or_introl Hch))).
Defined.

(** C4, as stated, fails.  This container has a channel count that is not
    1, namely 0: [wave.open] refuses it, and its exception leaves
    [transcribe_audio] at line 91; no handle was made that could be
    closed, and no pair is returned, the format error no more than any
    other. *)
Lemma transcribe_refused_not_returned :
  nchannels no_channels <> 1%Z
  /\ @transcribe_container scripted hello_engine no_channels
     = (None, Raised (Exception "bad # of channels"))
  /\ forall result,
       snd (@transcribe_container scripted hello_engine no_channels)
       <> Returned result.
Proof.
  split; [cbn; lia|]. split; [reflexivity|].
  intros result. vm_compute. discriminate.
Qed.


Lemma pause_engine_feed :
  exists evs,
    @feed scripted pause_engine
      (Scripted [Utterance (lit ""); Utterance (lit "world")] [] (lit ""))
      (batches two_batches)
    = (evs, inr (Scripted [] (lit "world") (lit ""), [lit ""; lit "world"])).
Proof. eexists. vm_compute. reflexivity. Qed.

Lemma transcribe_decodes_witness :
  valid_format two_batches
  /\ snd (@transcribe_audio scripted pause_engine two_batches)
     = Returned (Some (lit "world"), None)
  /\ trimmed (lit "world")
  /\ running [lit ""; lit "world"] ++ lit "" = lit " world ".
Proof.
  split; [exact two_batches_valid|].
  destruct pause_engine_feed as (evs & Hfeed).
  destruct (@transcribe_decodes scripted pause_engine two_batches _ _ _ _ _ _
              two_batches_valid eq_refl Hfeed eq_refl)
    as (_ & _ & _ & Hrun & Htrim & _).
  split; [rewrite Hrun; reflexivity|].
  split; [exact Htrim | reflexivity].
Defined.

Lemma broken_engine_feed :
  exists evs,
    @feed scripted broken_engine
      (Scripted [Utterance (lit "hello"); Corrupt] [] (lit "world"))
      (batches two_batches)
    = (evs, inl (Exception "Failed to process waveform")).
Proof. eexists. vm_compute. reflexivity. Qed.

Lemma transcribe_recognizer_error_raises_witness :
  valid_format two_batches
  /\ snd (@transcribe_audio scripted broken_engine two_batches)
     = Raised (Exception "Failed to process waveform").
Proof.
  split; [exact two_batches_valid|].
  destruct broken_engine_feed as (evs & Hfeed).
  exact (proj1 (@transcribe_recognizer_error_raises scripted broken_engine
                  two_batches _ _ _ two_batches_valid eq_refl Hfeed)).
Defined.

(** C3, as stated, fails.  This clip has the required format; the engine
    finalizes a first utterance and raises on the second batch;
    [transcribe_audio] then returns no pair, neither [(None, error)] nor
    any other: the exception is raised out of it. *)
Lemma transcribe_error_not_returned :
  valid_format two_batches
  /\ (exists evs,
        @feed scripted broken_engine
          (Scripted [Utterance (lit "hello"); Corrupt] [] (lit "world"))
          (batches two_batches)
        = (evs, inl (Exception "Failed to process waveform")))
  /\ forall result,
       snd (@transcribe_audio scripted broken_engine two_batches)
       <> Returned result.
Proof.
  split; [exact two_batches_valid|]. split; [exact broken_engine_feed|].
  intros result. vm_compute. discriminate.
Qed.

(** C1 fails on the code.  This clip has the required format and the
    engine raises on its first batch: the exception leaves
    [transcribe_audio] with the handle still open, no [close] having been
    called on it. *)
Theorem transcribe_leaves_handle_open :
  valid_format short_clip
  /\ @transcribe_audio scripted corrupt_engine short_clip
     = (TWorld (WaveRead short_clip [] false)
          [EvOpen; EvRecognizer 16000; EvReadFrames 4000 (silence 4);
           EvAcceptWaveform (silence 4)],
        Raised (Exception "Failed to process waveform"))
  /\ closed (audio (fst (@transcribe_audio scripted corrupt_engine short_clip)))
     = false.
Proof.
  split; [exact short_clip_valid|]. split; vm_compute; reflexivity.
Qed.


(** * Further properties *)

(** ** More on the transcriber *)

Section TranscriberMore.
Context {R : Type} `{Recognizer R}.

(** Whatever the recognizer does, the reads of [feed] are reads of 4000
    frames of the first batches, in order. *)
Lemma feed_reads_prefix (bs : list bytes) :
  forall (rec : R) evs res,
    feed rec bs = (evs, res) ->
    reads_of evs `prefix_of` map (fun b => (4000, b)) bs.
Proof.
  induction bs as [|b bs IH]; intros rec evs res.
  - cbn [feed]. by intros [= <- _].
  - cbn [feed map].
    destruct (AcceptWaveform rec b) as [e|[rec1 [|]]].
    + intros [= <- _]. unfold reads_of. cbn [omap list_omap].
      apply prefix_cons, prefix_nil.
    + destruct (Result rec1) as [e|[rec2 d]].
      * intros [= <- _]. unfold reads_of. cbn [app omap list_omap].
        apply prefix_cons, prefix_nil.
      * destruct (feed rec2 bs) as [evs' res'] eqn:Hfeed.
        intros [= <- _]. unfold reads_of. cbn [app omap list_omap].
        apply prefix_cons. by apply (IH rec2 evs' res').
    + destruct (feed rec1 bs) as [evs' res'] eqn:Hfeed.
      intros [= <- _]. unfold reads_of. cbn [app omap list_omap].
      apply prefix_cons. by apply (IH rec1 evs' res').
Qed.

(** X1. The loop of [transcribe_audio] terminates and never reads a frame
    twice: for every file and every recognizer, the reads made on the
    handle are reads of 4000 frames that return the first batches of the
    data, in order, with at most one empty read after the last batch; so
    there are never more reads than batches plus one. *)
Theorem transcribe_reads_in_order (file : wav_file) :
  let reads := reads_of (tlog (fst (transcribe_audio file))) in
  snd (transcribe_audio file) <> Exhausted
  /\ reads `prefix_of` map (fun b => (4000, b)) (batches file ++ [[]])
  /\ length reads <= S (length (batches file)).
Proof.
  cbv zeta.
  assert (reads_of (tlog (fst (transcribe_audio file)))
          `prefix_of` map (fun b => (4000, b)) (batches file ++ [[]])
          /\ snd (transcribe_audio file) <> Exhausted) as [Hpre Hend].
  { destruct (valid_format_dec file) as [Hvalid|Hbad].
    - destruct (transcribe_audio_valid file Hvalid) as [rest ->].
      destruct (KaldiRecognizer (framerate file)) as [e|rec];
        [split; [apply prefix_nil | done]|].
      destruct (feed rec (batches file)) as [evs [e|[rec1 parts]]] eqn:Hfeed.
      + split; [|done]. cbn [fst tlog]. unfold reads_of.
        cbn [app omap list_omap]. fold (reads_of evs).
        change (map ?f ?l) with (f <$> l). rewrite fmap_app.
        apply prefix_app_r. by apply (feed_reads_prefix _ _ _ _ Hfeed).
      + cbv zeta.
        assert (reads_of ([EvOpen; EvRecognizer (framerate file)] ++ evs
                          ++ [EvReadFrames 4000 []])
                = map (fun b => (4000, b)) (batches file ++ [[]])) as Hall.
        { unfold reads_of. cbn [app omap list_omap]. rewrite omap_app.
          fold (reads_of evs). rewrite (feed_reads _ _ _ _ _ Hfeed).
          change (map ?f ?l) with (f <$> l). by rewrite fmap_app. }
        destruct (FinalResult rec1) as [e|[rec2 d]]; (split; [|done]);
          cbn [fst tlog]; unfold reads_of in *; rewrite omap_app, Hall;
          cbn [omap list_omap]; by rewrite app_nil_r.
    - rewrite transcribe_audio_invalid by done. split; [apply prefix_nil|done]. }
  split; [done|]. split; [done|].
  apply prefix_length in Hpre. rewrite length_map, length_app in Hpre.
  cbn [length] in Hpre. lia.
Qed.

(** How [transcribe_audio] ends. *)
Lemma transcribe_outcomes (file : wav_file) :
  (~ valid_format file
   /\ transcribe_audio file
      = (TWorld (WaveRead file (frames file) true) [EvOpen; EvClose],
         Returned (None, Some InvalidAudioFormat)))
  \/ (valid_format file
      /\ ((exists e, snd (transcribe_audio file) = Raised e)
          \/ (exists t, snd (transcribe_audio file) = Returned (Some t, None)
                        /\ trimmed t))).
Proof.
  destruct (valid_format_dec file) as [Hvalid|Hbad].
  - right. split; [done|].
    destruct (transcribe_audio_valid file Hvalid) as [rest ->].
    destruct (KaldiRecognizer (framerate file)) as [e|rec]; [left; by eexists|].
    destruct (feed rec (batches file)) as [evs [e|[rec1 parts]]];
      [left; by eexists|].
    cbv zeta. destruct (FinalResult rec1) as [e|[rec2 d]]; [left; by eexists|].
    right. eexists. split; [done | apply strip_trimmed].
  - left. split; [unfold valid_format; lia | by apply transcribe_audio_invalid].
Qed.

(** X2. The pairs [transcribe_audio] returns.  For a file that [wave.open]
    accepts, an error pair is returned when the file is not of the
    required format and in no other case; it carries the format message,
    which is not empty, and no transcript. *)
Theorem transcribe_error_iff_invalid (file : wav_file) :
  wave_accepts file ->
  ((exists transcript err,
       snd (transcribe_container file) = Returned (transcript, Some err))
   <-> ~ valid_format file)
  /\ (forall transcript err,
        snd (transcribe_container file) = Returned (transcript, Some err) ->
        transcript = None /\ err = InvalidAudioFormat /\ err <> []).
Proof.
  intros Hopen.
  assert (snd (transcribe_container file) = snd (transcribe_audio file))
    as ->.
  { unfold transcribe_container. rewrite (wave_accepts_open file Hopen).
    by destruct (transcribe_audio file). }
  assert (forall transcript err,
             snd (transcribe_audio file) = Returned (transcript, Some err) ->
             ~ valid_format file /\ transcript = None
             /\ err = InvalidAudioFormat) as Hshape.
  { intros transcript err.
    destruct (valid_format_dec file) as [Hvalid|Hbad].
    - destruct (transcribe_audio_valid file Hvalid) as [rest ->].
      destruct (KaldiRecognizer (framerate file)) as [e|rec]; [done|].
      destruct (feed rec (batches file)) as [evs [e|[rec1 parts]]]; [done|].
      cbv zeta. by destruct (FinalResult rec1) as [e|[rec2 d]].
    - rewrite transcribe_audio_invalid by done. cbn [snd].
      intros [= <- <-]. split; [|done]. unfold valid_format. lia. }
  split.
  - split.
    + intros (transcript & err & Hrun). by apply (Hshape transcript err).
    + intros Hbad. exists None, InvalidAudioFormat.
      rewrite transcribe_audio_invalid; [done|].
      destruct (valid_format_dec file); [done | tauto].
  - intros transcript err Hrun.
    destruct (Hshape transcript err Hrun) as (_ & -> & ->). done.
Qed.

(** X3. A transcript [transcribe_audio] returns comes with no error, from a
    file of the required format, and has no whitespace at its ends:
    trimming it again changes nothing. *)
Theorem transcribe_transcript_trimmed (file : wav_file) (transcript : str)
    (err : option str) :
  snd (transcribe_audio file) = Returned (Some transcript, err) ->
  err = None /\ valid_format file /\ trimmed transcript
  /\ strip transcript = transcript.
Proof.
  destruct (valid_format_dec file) as [Hvalid|Hbad].
  - destruct (transcribe_audio_valid file Hvalid) as [rest ->].
    destruct (KaldiRecognizer (framerate file)) as [e|rec]; [done|].
    destruct (feed rec (batches file)) as [evs [e|[rec1 parts]]]; [done|].
    cbv zeta. destruct (FinalResult rec1) as [e|[rec2 d]]; [done|].
    cbn [snd]. intros [= <- <-].
    split; [done|]. split; [done|].
    split; [apply strip_trimmed | apply strip_strip].
  - by rewrite transcribe_audio_invalid.
Qed.

(** X4. When the recognizer cannot be created for a file of the required
    format, the exception is raised out of [transcribe_audio] before any
    frame is read. *)
Theorem transcribe_recognizer_unavailable (file : wav_file) (e : exn) :
  valid_format file ->
  KaldiRecognizer (framerate file) = inl e ->
  snd (transcribe_audio file) = Raised e
  /\ tlog (fst (transcribe_audio file))
     = [EvOpen; EvRecognizer (framerate file)]
  /\ unread (audio (fst (transcribe_audio file))) = frames file.
Proof.
  intros Hvalid Hnew.
  destruct (transcribe_audio_valid file Hvalid) as [rest ->].
  by rewrite Hnew.
Qed.

(** X5. When the recognizer answers every batch of a file of the required
    format and gives its final result, the transcript returned is empty
    exactly when every finalized part and the final result are whitespace
    only (a recording of silence, for one). *)
Theorem transcribe_empty_iff_silent (file : wav_file) (rec0 rec1 rec2 : R)
    (evs : list tevent) (parts : list str) (d : dict) :
  valid_format file ->
  KaldiRecognizer (framerate file) = inr rec0 ->
  feed rec0 (batches file) = (evs, inr (rec1, parts)) ->
  FinalResult rec1 = inr (rec2, d) ->
  snd (transcribe_audio file) = Returned (Some [], None)
  <-> Forall blank parts /\ blank (dict_get d (lit "text") (lit "")).
Proof.
  intros Hvalid Hnew Hfeed Hfinal.
  destruct (transcribe_audio_valid file Hvalid) as [rest ->].
  rewrite Hnew, Hfeed, Hfinal. cbn [snd].
  rewrite <- blank_running, <- blank_app, <- strip_nil_iff.
  split; [by intros [= ->] | by intros ->].
Qed.
End TranscriberMore.

(** ** More on the summarizer *)

Lemma prompt_of_instructions (text : str) :
  prompt_of text = instructions ++ text ++ nl.
Proof. reflexivity. Qed.

Lemma length_instructions : length instructions = 195.
Proof. vm_compute. reflexivity. Qed.

Lemma length_prompt_of (text : str) :
  length (prompt_of text) = 196 + length text.
Proof.
  rewrite prompt_of_instructions, !length_app, length_instructions.
  cbn [length nl]. lia.
Qed.

(** X7. The number of chunks, hence of calls on the model when none fails, is
    the ceiling of (the transcript length plus the 196 characters of the
    template) over 1200; it is never zero. *)
Theorem chunk_count (text : str) :
  length (chunks_of (prompt_of text)) = (length text + 1395) / 1200
  /\ 1 <= length (chunks_of (prompt_of text)).
Proof.
  unfold chunks_of, max_chars.
  rewrite slices_eq, length_map, length_seq, length_prompt_of.
  replace (196 + length text + 1200 - 1) with (length text + 1395) by lia.
  split; [done|].
  replace (length text + 1395) with (length text + 195 + 1 * 1200) by lia.
  rewrite Nat.div_add by lia. lia.
Qed.

(** X8. The instructions are sent once: the first chunk is the start of the
    instructions followed by the transcript, and every later chunk is a
    slice of the transcript (and the closing newline) alone. *)
Theorem instructions_only_in_first_chunk (text : str) :
  chunks_of (prompt_of text) !! 0
  = Some (take 1200 (instructions ++ text ++ nl))
  /\ forall k c,
       chunks_of (prompt_of text) !! S k = Some c ->
       c = take 1200 (drop (1005 + k * 1200) (text ++ nl)).
Proof.
  unfold chunks_of, max_chars. split.
  - rewrite prompt_of_instructions.
    rewrite slices_cons by (lia || done). done.
  - intros k c Hk. apply slices_lookup in Hk. rewrite Hk.
    rewrite prompt_of_instructions, drop_app_ge
      by (rewrite length_instructions; lia).
    rewrite length_instructions. do 2 f_equal; lia.
Qed.

Section SummarizerMore.
Context {G : Type} `{Pipeline G}.

(** When the loop returns, the model has answered every chunk. *)
Lemma summarize_chunks_returned (cs : list str) :
  forall acc (w w' : sworld G) outs,
    summarize_chunks cs acc w = (w', Returned outs) ->
    exists news,
      generates (model w) cs (model w') news
      /\ outs = acc ++ news
      /\ slog w' = slog w ++ map summarize_event cs.
Proof.
  induction cs as [|c cs IH]; intros acc w w' outs.
  - cbn [summarize_chunks]. unfold ret. intros [= <- <-].
    exists []. split; [constructor|]. by rewrite !app_nil_r.
  - rewrite summarize_chunks_cons.
    destruct (summarizer (model w) c 160 60 false) as [s1 r] eqn:Hcall.
    cbv zeta. destruct (summary_of r) as [e|o] eqn:Ho; [done|].
    intros Hrun. apply IH in Hrun as (news & Hgen & -> & Hlog).
    cbn [model slog] in *. exists (o :: news). split; [|split].
    + by apply (generates_cons _ _ _ s1 r).
    + by rewrite <- app_assoc.
    + rewrite Hlog. cbn [map]. by rewrite <- app_assoc.
Qed.

(** The loop only adds to the log of calls. *)
Lemma summarize_chunks_grows (cs : list str) :
  forall acc (w : sworld G),
    exists rest, slog (fst (summarize_chunks cs acc w)) = slog w ++ rest.
Proof.
  induction cs as [|c cs IH]; intros acc w.
  - exists []. by rewrite app_nil_r.
  - rewrite summarize_chunks_cons.
    destruct (summarizer (model w) c 160 60 false) as [s1 r].
    cbv zeta. destruct (summary_of r) as [e|o]; [by eexists|].
    destruct (IH (acc ++ [o]) (SWorld s1 (slog w ++ [summarize_event c])))
      as [rest ->]. cbn [slog]. rewrite <- app_assoc. by eexists.
Qed.

(** The loop calls the model on its first chunk, whatever happens next. *)
Lemma summarize_chunks_first (c : str) (cs : list str) acc (w : sworld G) :
  exists rest,
    slog (fst (summarize_chunks (c :: cs) acc w))
    = slog w ++ summarize_event c :: rest.
Proof.
  rewrite summarize_chunks_cons.
  destruct (summarizer (model w) c 160 60 false) as [s1 r].
  cbv zeta. destruct (summary_of r) as [e|o]; [by exists []|].
  destruct (summarize_chunks_grows cs (acc ++ [o])
              (SWorld s1 (slog w ++ [summarize_event c]))) as [rest ->].
  cbn [slog]. rewrite <- app_assoc. by eexists.
Qed.

Lemma summarize_chunks_ends (cs : list str) :
  forall acc (w : sworld G), snd (summarize_chunks cs acc w) <> Exhausted.
Proof.
  induction cs as [|c cs IH]; intros acc w; [done|].
  rewrite summarize_chunks_cons.
  destruct (summarizer (model w) c 160 60 false) as [s1 r].
  cbv zeta. destruct (summary_of r) as [e|o]; [done | apply IH].
Qed.

(** How [summarize_text_offline] ends. *)
Lemma summarize_outcomes (text : str) (w : sworld G) :
  (blank text
   /\ summarize_text_offline text w = (w, Returned (None, Some EmptyTranscript)))
  \/ (~ blank text
      /\ ((exists e, snd (summarize_text_offline text w) = Raised e)
          \/ (exists summary,
                snd (summarize_text_offline text w)
                = Returned (Some summary, None)
                /\ trimmed summary))).
Proof.
  unfold summarize_text_offline.
  destruct (decide (strip text = [])) as [Hs|Hs].
  - left. rewrite (bool_decide_eq_true_2 _ Hs), orb_true_r.
    split; [by apply strip_nil_iff | done].
  - right. rewrite guard_false by done. split; [by rewrite <- strip_nil_iff|].
    unfold bind, ret.
    pose proof (summarize_chunks_ends (chunks_of (prompt_of text)) [] w) as Hend.
    destruct (summarize_chunks _ _ w) as [w' [outs|e|]];
      [right | left; by eexists | done].
    eexists. split; [done | apply strip_trimmed].
Qed.

(** X9. [summarize_text_offline] returns an error pair for the transcripts
    that are empty or whitespace only, and for no other; the pair carries
    the empty-transcript message, which is not empty, and no summary. *)
Theorem summarize_error_iff_blank (text : str) (w : sworld G) :
  ((exists summary err,
       snd (summarize_text_offline text w) = Returned (summary, Some err))
   <-> blank text)
  /\ (forall summary err,
        snd (summarize_text_offline text w) = Returned (summary, Some err) ->
        summary = None /\ err = EmptyTranscript /\ err <> []).
Proof.
  assert (forall summary err,
             snd (summarize_text_offline text w) = Returned (summary, Some err) ->
             blank text /\ summary = None /\ err = EmptyTranscript) as Hshape.
  { intros summary err. unfold summarize_text_offline.
    destruct (decide (strip text = [])) as [Hs|Hs].
    - rewrite (bool_decide_eq_true_2 _ Hs), orb_true_r. cbn.
      intros [= <- <-]. by apply strip_nil_iff in Hs.
    - rewrite guard_false by done. unfold bind, ret.
      by destruct (summarize_chunks _ _ _) as [w' [outs|e|]]. }
  split.
  - split.
    + intros (summary & err & Hrun). by apply (Hshape summary err).
    + intros Hb. exists None, EmptyTranscript. unfold summarize_text_offline.
      rewrite (bool_decide_eq_true_2 (strip text = [])) by by apply strip_blank.
      by rewrite orb_true_r.
  - intros summary err Hrun.
    destruct (Hshape summary err Hrun) as (_ & -> & ->). done.
Qed.

(** X10. A transcript that is not whitespace only always costs a call on the
    model: whatever the model then does, the first call
    [summarize_text_offline] logs is the one for the first chunk, which
    starts with the instructions. *)
Theorem summarize_first_call (text : str) (w : sworld G) :
  ~ blank text ->
  exists rest,
    slog (fst (summarize_text_offline text w))
    = slog w
      ++ summarize_event (take 1200 (instructions ++ text ++ nl)) :: rest.
Proof.
  intros Hb. unfold summarize_text_offline.
  rewrite guard_false by by rewrite strip_nil_iff.
  unfold chunks_of, max_chars. rewrite prompt_of_instructions.
  rewrite slices_cons by (lia || done).
  destruct (summarize_chunks_first
              (take 1200 (instructions ++ text ++ nl))
              (slices 1200 (drop 1200 (instructions ++ text ++ nl))) [] w)
    as [rest Hlog].
  exists rest. unfold bind, ret.
  destruct (summarize_chunks _ _ w) as [w' [outs|e|]]; exact Hlog.
Qed.

(** X11. A summary is returned only when the model has answered every chunk:
    it comes with no error, for a transcript that is not whitespace only;
    the model was called once per chunk, in order; the summary is the
    trimmed join of all the outputs and has no whitespace at its ends. *)
Theorem summarize_summary_complete (text : str) (w w' : sworld G)
    (summary : str) (err : option str) :
  summarize_text_offline text w = (w', Returned (Some summary, err)) ->
  err = None /\ ~ blank text
  /\ (exists outs,
        generates (model w) (chunks_of (prompt_of text)) (model w') outs
        /\ summary = strip (join (lit " ") outs))
  /\ slog w' = slog w ++ map summarize_event (chunks_of (prompt_of text))
  /\ trimmed summary.
Proof.
  unfold summarize_text_offline.
  destruct (decide (strip text = [])) as [Hs|Hs].
  { by rewrite (bool_decide_eq_true_2 _ Hs), orb_true_r. }
  rewrite guard_false by done. unfold bind, ret.
  destruct (summarize_chunks (chunks_of (prompt_of text)) [] w)
    as [w1 [outs|e|]] eqn:Hloop; [|done..].
  intros [= <- <- <-].
  apply summarize_chunks_returned in Hloop as (news & Hgen & -> & Hlog).
  split; [done|]. split; [by rewrite <- strip_nil_iff|].
  split; [by exists news|]. split; [done | apply strip_trimmed].
Qed.

(** [summarize_text_offline] ends: its loop is over the chunks. *)
Lemma summarize_ends (text : str) (w : sworld G) :
  snd (summarize_text_offline text w) <> Exhausted.
Proof.
  unfold summarize_text_offline.
  destruct (bool_decide (text = []) || bool_decide (strip text = []));
    [done|].
  unfold bind, ret.
  pose proof (summarize_chunks_ends (chunks_of (prompt_of text)) [] w) as Hend.
  by destruct (summarize_chunks _ _ w) as [w' [outs|e|]].
Qed.
End SummarizerMore.

(** ** The upload filter *)

Lemma rpartition_None (c : N) (s : str) : rpartition c s = None <-> c ∉ s.
Proof.
  induction s as [|a s IH]; cbn [rpartition].
  - split; [intros _; apply not_elem_of_nil | done].
  - rewrite not_elem_of_cons.
    destruct (rpartition c s) as [[before after]|].
    + split; [done|]. intros [_ Hs]. by apply IH in Hs.
    + destruct (N.eqb_spec a c) as [->|Hne].
      * split; [done | by intros [? _]].
      * split; [|done]. intros _. split; [done | by apply IH].
Qed.

Lemma rpartition_last (c : N) (before after : str) :
  c ∉ after -> rpartition c (before ++ c :: after) = Some (before, after).
Proof.
  intros Hc. induction before as [|a before IH]; cbn [app rpartition].
  - apply rpartition_None in Hc. by rewrite Hc, N.eqb_refl.
  - by rewrite IH.
Qed.

Lemma rpartition_inv (c : N) (s : str) :
  forall before after,
    rpartition c s = Some (before, after) ->
    s = before ++ c :: after /\ c ∉ after.
Proof.
  induction s as [|a s IH]; intros before after; cbn [rpartition]; [done|].
  destruct (rpartition c s) as [[b1 a1]|] eqn:Hs.
  - intros [= <- <-]. destruct (IH b1 a1 eq_refl) as [-> Hc]. done.
  - destruct (N.eqb_spec a c) as [->|Hne]; [|done].
    intros [= <- <-]. split; [done | by apply rpartition_None].
Qed.

(** X12. [rsplit] at the last occurrence: a string without the separator is
    given back whole; otherwise the two parts are what is before and what
    is after the last separator, and joining them by the separator gives
    the string back. *)
Theorem rsplit1_last (c : N) (s : str) :
  (c ∉ s -> rsplit1 c s = [s])
  /\ (forall before after,
        c ∉ after -> rsplit1 c (before ++ c :: after) = [before; after])
  /\ join [c] (rsplit1 c s) = s
  /\ (c ∈ s -> exists before after,
                 rsplit1 c s = [before; after] /\ c ∉ after).
Proof.
  unfold rsplit1. split; [|split; [|split]].
  - intros Hc. apply rpartition_None in Hc. by rewrite Hc.
  - intros before after Hc. by rewrite rpartition_last.
  - destruct (rpartition c s) as [[before after]|] eqn:Hs; [|done].
    apply rpartition_inv in Hs as [-> _]. done.
  - intros Hc. destruct (rpartition c s) as [[before after]|] eqn:Hs.
    + apply rpartition_inv in Hs as [_ Hafter]. by exists before, after.
    + apply rpartition_None in Hs. done.
Qed.

Section FilterFacts.
Context `{Casing}.

Lemma contains_true (c : N) (s : str) : contains c s = true <-> c ∈ s.
Proof. unfold contains. apply bool_decide_eq_true. Qed.

Lemma allowed_extension (ext : str) :
  bool_decide (lower ext ∈ ALLOWED_EXTENSIONS)
  = bool_decide (lower ext = lit "wav").
Proof. apply bool_decide_ext. unfold ALLOWED_EXTENSIONS. set_solver. Qed.

Lemma allowed_file_total (name : str) :
  exists allowed, allowed_file name = inr allowed.
Proof.
  unfold allowed_file, rsplit1.
  destruct (contains dot name) eqn:Hdot; [|by eexists].
  apply contains_true in Hdot.
  destruct (rpartition dot name) as [[before after]|] eqn:Hs.
  - cbn. by eexists.
  - apply rpartition_None in Hs. done.
Qed.

Lemma allowed_file_no_dot (name : str) :
  dot ∉ name -> allowed_file name = inr false.
Proof.
  intros Hdot. unfold allowed_file.
  destruct (contains dot name) eqn:Hc; [|done].
  by apply contains_true in Hc.
Qed.

Lemma allowed_file_ext (stem ext : str) :
  dot ∉ ext ->
  allowed_file (stem ++ dot :: ext) = inr (bool_decide (lower ext = lit "wav")).
Proof.
  intros Hext. unfold allowed_file, rsplit1.
  assert (contains dot (stem ++ dot :: ext) = true) as ->.
  { apply contains_true. set_solver. }
  rewrite rpartition_last by done.
  cbn [index lookup list_lookup]. by rewrite allowed_extension.
Qed.

(** X13. [allowed_file] never raises, and only what follows the last dot
    counts: a name without a dot is refused, and a name with a dot is
    accepted exactly when the part after its last dot, lowered, is [wav],
    whatever is before that dot. *)
Theorem allowed_file_last_extension (name : str) :
  (exists allowed, allowed_file name = inr allowed)
  /\ (dot ∉ name -> allowed_file name = inr false)
  /\ (forall stem ext,
        dot ∉ ext ->
        allowed_file (stem ++ dot :: ext)
        = inr (bool_decide (lower ext = lit "wav"))).
Proof.
  split; [apply allowed_file_total|].
  split; [apply allowed_file_no_dot | apply allowed_file_ext].
Qed.
End FilterFacts.

(** ** The routes *)

Section RouteFacts.
Context {R G D : Type} `{Recognizer R} `{Pipeline G} `{Firestore D}.
Context `{Casing} `{Platform}.

Lemma require_login_true (s : session) user :
  s !! lit "user" = Some user -> require_login s = true.
Proof. intros Hs. unfold require_login. by rewrite Hs. Qed.

(** [upload], once the request has passed its checks. *)
Lemma upload_checked (s : session) (request_files : gmap (list N) upload_file)
    (hex : str) (user : account) (file : upload_file) (w : uworld G D) :
  s !! lit "user" = Some user ->
  request_files !! lit "audio" = Some file ->
  filename file <> [] ->
  allowed_file (filename file) = inr true ->
  upload s request_files hex w
  = (let* (transcript, err) := transcribe_path (stored_path hex) in
     match err with
     | Some (c :: err') => ret (Json 400 (error_body (c :: err')))
     | _ =>
         let* (summary, err2) := summarize_optional transcript in
         match err2 with
         | Some (c :: err2') => ret (Json 400 (error_body (c :: err2')))
         | _ =>
             add (record_of user (hex ++ lit ".wav") transcript summary) ;;
             ret (Json 200 (processed_body transcript summary))
         end
     end)
      (UWorld (pipeline w) (handles w) (store w)
         (<[stored_path hex := content file]> (files w))).
Proof.
  intros Hs Hfile Hname Hallowed. unfold upload.
  rewrite (require_login_true s user Hs), Hfile. cbn [negb].
  rewrite bool_decide_eq_false_2 by done.
  rewrite Hallowed. unfold bind at 1. cbn [lift ret negb].
  unfold bind at 1. unfold save at 1. unfold stored_path.
  unfold session_user. rewrite Hs. 
  unfold bind. 
  destruct (transcribe_path _ _) as [w1 [[transcript err]|e|]]; [|done..].
  destruct err as [[|c err']|];
    destruct (summarize_optional transcript w1) as [w2 [[summary err2]|e|]];
    try done; destruct err2 as [[|c2 err2']|]; done.
Qed.

(** [upload], when the request fails one of its checks. *)
Lemma upload_unchecked (s : session) (request_files : gmap (list N) upload_file)
    (hex : str) (w : uworld G D) :
  s !! lit "user" = None
  \/ request_files !! lit "audio" = None
  \/ (exists file, request_files !! lit "audio" = Some file
                   /\ (filename file = []
                       \/ allowed_file (filename file) = inr false)) ->
  exists resp,
    upload s request_files hex w = (w, Returned resp)
    /\ forall body, resp <> Json 200 body.
Proof.
  intros Hfail. unfold upload, require_login.
  destruct (s !! lit "user") as [user|]; [|by eexists].
  cbn [negb bool_decide decide_rel].
  rewrite bool_decide_eq_true_2 by by eexists. cbn [negb].
  destruct (request_files !! lit "audio") as [file|]; [|by eexists].
  destruct Hfail as [?|[?|(file' & [= <-] & Hfile)]]; [done..|].
  destruct (decide (filename file = [])) as [Hname|Hname].
  { rewrite bool_decide_eq_true_2 by done. by eexists. }
  rewrite bool_decide_eq_false_2 by done.
  destruct Hfile as [?|Hallowed]; [done|].
  rewrite Hallowed. unfold bind, lift, ret. cbn [negb]. by eexists.
Qed.

(** Every way [upload] ends once the request has passed its checks. *)
Lemma upload_checked_outcomes (s : session)
    (request_files : gmap (list N) upload_file) (hex : str) (user : account)
    (file : upload_file) (w w' : uworld G D) (out : outcome response) :
  s !! lit "user" = Some user ->
  request_files !! lit "audio" = Some file ->
  filename file <> [] ->
  allowed_file (filename file) = inr true ->
  upload s request_files hex w = (w', out) ->
  files w' = <[stored_path hex := content file]> (files w)
  /\ ((forall body, out <> Returned (Json 200 body)) -> store w' = store w)
  /\ (forall body,
        out = Returned (Json 200 body) ->
        exists transcript summary,
          transcript <> [] /\ trimmed transcript /\ trimmed summary
          /\ body = processed_body (Some transcript) (Some summary)
          /\ add_record (store w)
               (record_of user (hex ++ lit ".wav")
                  (Some transcript) (Some summary))
             = inr (store w')).
Proof.
  intros Hs Hfile Hname Hallowed.
  rewrite (upload_checked s request_files hex user file w) by done.
  unfold bind at 1. unfold transcribe_path. cbn [files].
  rewrite lookup_insert_eq.
  destruct (wave_parse (content file)) as [e|audio_file].
  { intros [= <- <-]. by split; [|split]. }
  destruct (transcribe_outcomes audio_file)
    as [[_ ->]|[_ [[e He]|(t & Ht & Htrim)]]].
  - cbn [InvalidAudioFormat]. intros [= <- <-]. by split; [|split].
  - destruct (transcribe_audio audio_file) as [tw tout]. cbn [snd] in He.
    subst tout. intros [= <- <-]. by split; [|split].
  - destruct (transcribe_audio audio_file) as [tw tout]. cbn [snd] in Ht.
    subst tout. cbn [pipeline handles store files].
    unfold bind at 1. unfold summarize_optional. cbn [pipeline handles store files].
    destruct (summarize_outcomes t (pipeline w))
      as [[_ ->]|[Hb [[e He]|(sm & Hsm & Hsmtrim)]]].
    + intros [= <- <-]. by split; [|split].
    + destruct (summarize_text_offline t (pipeline w)) as [p sout].
      cbn [snd] in He. subst sout. intros [= <- <-]. by split; [|split].
    + destruct (summarize_text_offline t (pipeline w)) as [p sout].
      cbn [snd] in Hsm. subst sout.
      unfold bind at 1. unfold add. cbn [pipeline handles store files].
      destruct (add_record (store w) _) as [e|d] eqn:Hadd.
      * intros [= <- <-]. by split; [|split].
      * unfold ret. intros [= <- <-]. cbn [files store].
        split; [done|].
        split; [intros Hno; by destruct (Hno (processed_body (Some t) (Some sm)))|].
        intros body [= <-]. exists t, sm.
        split; [intros ->; apply Hb; constructor|]. done.
Qed.

(** A request passes the checks of [upload], or fails one of them. *)
Lemma upload_cases (s : session) (request_files : gmap (list N) upload_file) :
  (exists user file,
      s !! lit "user" = Some user
      /\ request_files !! lit "audio" = Some file
      /\ filename file <> []
      /\ allowed_file (filename file) = inr true)
  \/ (s !! lit "user" = None
      \/ request_files !! lit "audio" = None
      \/ (exists file, request_files !! lit "audio" = Some file
                       /\ (filename file = []
                           \/ allowed_file (filename file) = inr false))).
Proof.
  destruct (s !! lit "user") as [user|]; [|right; by left].
  destruct (request_files !! lit "audio") as [file|]; [|right; right; by left].
  destruct (decide (filename file = [])) as [Hname|Hname].
  { right. right. right. exists file. split; [done | by left]. }
  destruct (allowed_file_total (filename file)) as [[|] Hallowed].
  - left. by exists user, file.
  - right. right. right. exists file. split; [done | by right].
Qed.

(** X14. A request that fails a check of [upload] is answered at once and
    changes nothing: without a logged-in user it is redirected to the
    login page; without an [audio] file, with an empty file name, or with
    a file name that has no dot or whose last extension, lowered, is not
    [wav], it gets the matching 400 answer.  Nothing is stored and no
    engine is called. *)
Theorem upload_rejects_before_saving (s : session)
    (request_files : gmap (list N) upload_file) (hex : str) (w : uworld G D) :
  (s !! lit "user" = None ->
   upload s request_files hex w = (w, Returned (Redirect (lit "login"))))
  /\ (forall user,
        s !! lit "user" = Some user ->
        request_files !! lit "audio" = None ->
        upload s request_files hex w
        = (w, Returned (Json 400 (error_body (lit "No audio uploaded")))))
  /\ (forall user file,
        s !! lit "user" = Some user ->
        request_files !! lit "audio" = Some file ->
        filename file = [] ->
        upload s request_files hex w
        = (w, Returned (Json 400 (error_body (lit "No selected file")))))
  /\ (forall user file,
        s !! lit "user" = Some user ->
        request_files !! lit "audio" = Some file ->
        filename file <> [] ->
        dot ∉ filename file
        \/ (exists stem ext,
              filename file = stem ++ dot :: ext
              /\ (dot ∉ ext) /\ (lower ext <> lit "wav")) ->
        upload s request_files hex w
        = (w, Returned (Json 400 (error_body (lit "Only .wav files allowed"))))).
Proof.
  split; [|split; [|split]].
  - intros Hs. unfold upload, require_login. by rewrite Hs.
  - intros user Hs Hfile. unfold upload.
    by rewrite (require_login_true s user Hs), Hfile.
  - intros user file Hs Hfile Hname. unfold upload.
    rewrite (require_login_true s user Hs), Hfile. cbn [negb].
    by rewrite bool_decide_eq_true_2.
  - intros user file Hs Hfile Hname Hext. unfold upload.
    rewrite (require_login_true s user Hs), Hfile. cbn [negb].
    rewrite bool_decide_eq_false_2 by done.
    assert (allowed_file (filename file) = inr false) as ->; [|done].
    destruct Hext as [Hdot|(stem & ext & -> & Hdot & Hext)].
    + by apply allowed_file_no_dot.
    + rewrite allowed_file_ext by done. by rewrite bool_decide_eq_false_2.
Qed.

(** X15. A recording that passes the checks but is not of the required format
    is stored, opened and closed, and answered with 400 and the format
    message: the summarizer is not called and nothing is written to the
    database. *)
Theorem upload_invalid_format (s : session)
    (request_files : gmap (list N) upload_file) (hex : str) (user : account)
    (file : upload_file) (recording : wav_file) (w : uworld G D) :
  s !! lit "user" = Some user ->
  request_files !! lit "audio" = Some file ->
  filename file <> [] ->
  allowed_file (filename file) = inr true ->
  wave_parse (content file) = inr recording ->
  ~ valid_format recording ->
  upload s request_files hex w
  = (UWorld (pipeline w)
       (handles w
        ++ [TWorld (WaveRead recording (frames recording) true)
              [EvOpen; EvClose]])
       (store w)
       (<[stored_path hex := content file]> (files w)),
     Returned (Json 400 (error_body InvalidAudioFormat))).
Proof.
  intros Hs Hfile Hname Hallowed Hparse Hbad.
  rewrite (upload_checked s request_files hex user file w) by done.
  unfold bind at 1. unfold transcribe_path. cbn [files].
  rewrite lookup_insert_eq, Hparse.
  destruct (transcribe_outcomes recording) as [[_ ->]|[? _]]; done.
Qed.

(** X16. A file that passes the checks but that [wave.open] refuses makes
    [upload] raise: the file stays stored, and nothing else is done. *)
Theorem upload_not_wave (s : session)
    (request_files : gmap (list N) upload_file) (hex : str) (user : account)
    (file : upload_file) (e : exn) (w : uworld G D) :
  s !! lit "user" = Some user ->
  request_files !! lit "audio" = Some file ->
  filename file <> [] ->
  allowed_file (filename file) = inr true ->
  wave_parse (content file) = inl e ->
  upload s request_files hex w
  = (UWorld (pipeline w) (handles w) (store w)
       (<[stored_path hex := content file]> (files w)),
     Raised e).
Proof.
  intros Hs Hfile Hname Hallowed Hparse.
  rewrite (upload_checked s request_files hex user file w) by done.
  unfold bind at 1. unfold transcribe_path. cbn [files].
  by rewrite lookup_insert_eq, Hparse.
Qed.

(** X17. A recording of the required format in which the recognizer hears
    nothing but whitespace is answered with 400 and the empty-transcript
    message: the summarization model is not called and nothing is written
    to the database. *)
Theorem upload_silence (s : session)
    (request_files : gmap (list N) upload_file) (hex : str) (user : account)
    (file : upload_file) (recording : wav_file) (rec0 rec1 rec2 : R)
    (evs : list tevent) (parts : list str) (d : dict) (w : uworld G D) :
  s !! lit "user" = Some user ->
  request_files !! lit "audio" = Some file ->
  filename file <> [] ->
  allowed_file (filename file) = inr true ->
  wave_parse (content file) = inr recording ->
  valid_format recording ->
  KaldiRecognizer (framerate recording) = inr rec0 ->
  feed rec0 (batches recording) = (evs, inr (rec1, parts)) ->
  FinalResult rec1 = inr (rec2, d) ->
  Forall blank parts -> blank (dict_get d (lit "text") (lit "")) ->
  snd (upload s request_files hex w)
  = Returned (Json 400 (error_body EmptyTranscript))
  /\ pipeline (fst (upload s request_files hex w)) = pipeline w
  /\ store (fst (upload s request_files hex w)) = store w.
Proof.
  intros Hs Hfile Hname Hallowed Hparse Hvalid Hnew Hfeed Hfinal Hparts Hlast.
  assert (exists w',
             upload s request_files hex w
             = (w', Returned (Json 400 (error_body EmptyTranscript)))
             /\ pipeline w' = pipeline w /\ store w' = store w)
    as (w' & -> & Hp & Hdb); [|done].
  rewrite (upload_checked s request_files hex user file w) by done.
  unfold bind at 1. unfold transcribe_path. cbn [files].
  rewrite lookup_insert_eq, Hparse.
  destruct (transcribe_audio_valid recording Hvalid) as [rest ->].
  rewrite Hnew, Hfeed, Hfinal.
  assert (strip (running parts ++ dict_get d (lit "text") (lit "")) = [])
    as ->.
  { apply strip_blank, blank_app. split; [by apply blank_running | done]. }
  eexists. split; [reflexivity | done].
Qed.

(** X18. The whole route.  For a recording of the required format that the
    recognizer decodes to a transcript that is not empty, that the model
    summarizes chunk by chunk, and that the database accepts: [upload]
    stores the document with the transcript and the summary under the
    generated file name, and answers 200 with the same transcript and
    summary. *)
Theorem upload_success (s : session)
    (request_files : gmap (list N) upload_file) (hex : str) (user : account)
    (file : upload_file) (recording : wav_file) (rec0 rec1 rec2 : R)
    (evs : list tevent) (parts : list str) (d : dict) (g' : G)
    (outs : list str) (db' : D) (w : uworld G D) :
  let transcript :=
    strip (running parts ++ dict_get d (lit "text") (lit "")) in
  let summary := strip (join (lit " ") outs) in
  s !! lit "user" = Some user ->
  request_files !! lit "audio" = Some file ->
  filename file <> [] ->
  allowed_file (filename file) = inr true ->
  wave_parse (content file) = inr recording ->
  valid_format recording ->
  KaldiRecognizer (framerate recording) = inr rec0 ->
  feed rec0 (batches recording) = (evs, inr (rec1, parts)) ->
  FinalResult rec1 = inr (rec2, d) ->
  transcript <> [] ->
  generates (model (pipeline w)) (chunks_of (prompt_of transcript)) g' outs ->
  add_record (store w)
    (record_of user (hex ++ lit ".wav") (Some transcript) (Some summary))
  = inr db' ->
  snd (upload s request_files hex w)
  = Returned (Json 200 (processed_body (Some transcript) (Some summary)))
  /\ store (fst (upload s request_files hex w)) = db'
  /\ pipeline (fst (upload s request_files hex w))
     = SWorld g' (slog (pipeline w)
                  ++ map summarize_event (chunks_of (prompt_of transcript)))
  /\ files (fst (upload s request_files hex w))
     = <[stored_path hex := content file]> (files w).
Proof.
  intros transcript summary Hs Hfile Hname Hallowed Hparse Hvalid Hnew Hfeed
    Hfinal Hne Hgen Hadd.
  assert (exists tw,
             upload s request_files hex w
             = (UWorld
                  (SWorld g'
                     (slog (pipeline w)
                      ++ map summarize_event (chunks_of (prompt_of transcript))))
                  (handles w ++ [tw]) db'
                  (<[stored_path hex := content file]> (files w)),
                Returned
                  (Json 200 (processed_body (Some transcript) (Some summary)))))
    as (tw & ->); [|done].
  rewrite (upload_checked s request_files hex user file w) by done.
  unfold bind at 1. unfold transcribe_path. cbn [files].
  rewrite lookup_insert_eq, Hparse.
  destruct (transcribe_audio_valid recording Hvalid) as [rest ->].
  rewrite Hnew, Hfeed, Hfinal. fold transcript.
  cbn [pipeline handles store files].
  unfold bind at 1. unfold summarize_optional.
  cbn [pipeline handles store files].
  unfold summarize_text_offline.
  rewrite guard_false by (subst transcript; by rewrite strip_strip).
  unfold bind at 1.
  destruct (pipeline w) as [g log] eqn:Hp. cbn [model slog] in *.
  rewrite (summarize_chunks_generates _ _ _ _ Hgen). cbn [app].
  unfold ret at 1. fold summary.
  unfold bind at 1. unfold add. cbn [pipeline handles store files].
  rewrite Hadd. by eexists.
Qed.

(** X19. The database is written by [upload] only when it answers 200, and
    then once: with the document of the logged-in user that carries the
    transcript and the summary of the answer, both of them without
    whitespace at their ends and the transcript not empty.  In every other
    case, an error answer or an exception, the database is left as it
    was. *)
Theorem upload_writes_only_on_success (s : session)
    (request_files : gmap (list N) upload_file) (hex : str) (w : uworld G D) :
  let w' := fst (upload s request_files hex w) in
  let out := snd (upload s request_files hex w) in
  ((forall body, out <> Returned (Json 200 body)) -> store w' = store w)
  /\ (forall body,
        out = Returned (Json 200 body) ->
        exists user transcript summary,
          s !! lit "user" = Some user
          /\ transcript <> [] /\ trimmed transcript /\ trimmed summary
          /\ body = processed_body (Some transcript) (Some summary)
          /\ add_record (store w)
               (record_of user (hex ++ lit ".wav")
                  (Some transcript) (Some summary))
             = inr (store w')).
Proof.
  cbv zeta.
  destruct (upload_cases s request_files)
    as [(user & file & Hs & Hfile & Hname & Hallowed)|Hfail].
  - destruct (upload s request_files hex w) as [w' out] eqn:Hrun.
    destruct (upload_checked_outcomes s request_files hex user file w w' out)
      as (_ & Hkeep & Hdone); [done..|].
    cbn [fst snd]. split; [done|]. intros body Hbody.
    destruct (Hdone body Hbody) as (t & sm & ?). by exists user, t, sm.
  - destruct (upload_unchecked s request_files hex w Hfail)
      as (resp & -> & Hresp).
    cbn [fst snd]. split; [done|]. intros body [= ->]. by destruct (Hresp body).
Qed.


(** X21. [history] never shows a transcription.  Without a logged-in user it
    answers the empty list and does not query the database.  Otherwise it
    queries the documents of the user, ten at most, and answers one item
    per document streamed, in order: the item has no [transcription]
    field, its [id] field is the identifier of the document (whatever
    [id] field the document had), and its other fields are those of the
    document.  The world is left as it was. *)
Theorem history_hides_transcription (s : session) (w : uworld G D) :
  (s !! lit "user" = None ->
   history s w = (w, Returned (JsonList 200 [])))
  /\ (forall user e,
        s !! lit "user" = Some user ->
        stream_records (store w) (uid user) 10 = inl e ->
        history s w = (w, Raised e))
  /\ (forall user docs,
        s !! lit "user" = Some user ->
        stream_records (store w) (uid user) 10 = inr docs ->
        exists items,
          history s w = (w, Returned (JsonList 200 items))
          /\ length items = length docs
          /\ forall i id doc,
               docs !! i = Some (id, doc) ->
               exists item,
                 items !! i = Some item
                 /\ item !! lit "transcription" = None
                 /\ item !! lit "id" = Some (VStr id)
                 /\ forall key,
                      key <> lit "id" -> key <> lit "transcription" ->
                      item !! key = doc !! key).
Proof.
  split; [|split].
  - intros Hs. unfold history. by rewrite Hs.
  - intros user e Hs Hq. unfold history. rewrite Hs. unfold bind.
    by rewrite Hq.
  - intros user docs Hs Hq. exists (map history_item docs).
    split; [|split].
    + unfold history. rewrite Hs. unfold bind. by rewrite Hq.
    + by rewrite length_map.
    + intros i id doc Hi. exists (history_item (id, doc)). split.
      * change (map ?f ?l) with (f <$> l). by rewrite list_lookup_fmap, Hi.
      * unfold history_item. cbn [fst snd]. split; [|split].
        -- apply lookup_delete_eq.
        -- rewrite lookup_delete_ne by done. apply lookup_insert_eq.
        -- intros key Hid Htr.
           rewrite lookup_delete_ne by done. by rewrite lookup_insert_ne.
Qed.
End RouteFacts.

(** ** The further properties on concrete inputs *)

Lemma transcribe_transcript_trimmed_witness :
  snd (@transcribe_audio scripted hello_engine two_batches)
  = Returned (Some (lit "hello  world"), None)
  /\ trimmed (lit "hello  world")
  /\ strip (lit "hello  world") = lit "hello  world".
Proof.
  assert (snd (@transcribe_audio scripted hello_engine two_batches)
          = Returned (Some (lit "hello  world"), None)) as Hrun
    by (vm_compute; reflexivity).
  split; [exact Hrun|].
  destruct (@transcribe_transcript_trimmed scripted hello_engine two_batches
              _ _ Hrun) as (_ & _ & Htrim & Hstrip).
  split; [exact Htrim | exact Hstrip].
Defined.

Lemma transcribe_recognizer_unavailable_witness :
  valid_format short_clip
  /\ snd (@transcribe_audio scripted unavailable_engine short_clip)
     = Raised (Exception "Failed to create a recognizer")
  /\ reads_of (tlog (fst (@transcribe_audio scripted unavailable_engine
                            short_clip))) = [].
Proof.
  split; [exact short_clip_valid|].
  destruct (@transcribe_recognizer_unavailable scripted unavailable_engine
              short_clip _ short_clip_valid eq_refl) as (Hout & Hlog & _).
  split; [exact Hout|]. rewrite Hlog. reflexivity.
Defined.

Lemma silent_engine_feed :
  exists evs,
    @feed scripted silent_engine (Scripted [] [] []) (batches short_clip)
    = (evs, inr (Scripted [] [] [], [])).
Proof. eexists. vm_compute. reflexivity. Qed.

Lemma transcribe_empty_iff_silent_witness :
  valid_format short_clip
  /\ snd (@transcribe_audio scripted silent_engine short_clip)
     = Returned (Some [], None).
Proof.
  split; [exact short_clip_valid|].
  destruct silent_engine_feed as (evs & Hfeed).
  apply (@transcribe_empty_iff_silent scripted silent_engine short_clip
           _ _ _ _ _ _ short_clip_valid eq_refl Hfeed eq_refl).
  split; constructor.
Defined.

Lemma long_text_not_whitespace : ~ blank long_text.
Proof. intros Hb. apply strip_nil_iff in Hb. by apply long_text_not_blank. Qed.

Lemma summarize_first_call_witness :
  ~ blank long_text
  /\ exists rest,
       slog (fst (@summarize_text_offline nat flaky_pipeline long_text
                    (SWorld 0 [])))
       = summarize_event (take 1200 (instructions ++ long_text ++ nl)) :: rest.
Proof.
  split; [exact long_text_not_whitespace|].
  exact (@summarize_first_call nat flaky_pipeline long_text (SWorld 0 [])
           long_text_not_whitespace).
Defined.

Lemma counting_pipeline_run :
  @summarize_text_offline nat counting_pipeline long_text (SWorld 0 [])
  = (SWorld 2 (map summarize_event (chunks_of (prompt_of long_text))),
     Returned (Some (lit "You are aaaaaaaa"), None)).
Proof. vm_compute. reflexivity. Qed.

Lemma summarize_summary_complete_witness :
  @summarize_text_offline nat counting_pipeline long_text (SWorld 0 [])
  = (SWorld 2 (map summarize_event (chunks_of (prompt_of long_text))),
     Returned (Some (lit "You are aaaaaaaa"), None))
  /\ trimmed (lit "You are aaaaaaaa")
  /\ exists outs,
       @generates nat counting_pipeline 0 (chunks_of (prompt_of long_text))
         2 outs.
Proof.
  split; [exact counting_pipeline_run|].
  destruct (@summarize_summary_complete nat counting_pipeline long_text
              _ _ _ _ counting_pipeline_run)
    as (_ & _ & (outs & Hgen & _) & _ & Htrim).
  split; [exact Htrim | exists outs; exact Hgen].
Defined.

(** *** Requests *)

Lemma talk_allowed : @allowed_file ascii_lower (lit "talk.WAV") = inr true.
Proof. vm_compute. reflexivity. Qed.

Lemma request_user : logged_in !! lit "user" = Some alice.
Proof. vm_compute. reflexivity. Qed.

Lemma request_file name data :
  request_of name data !! lit "audio" = Some (UploadFile name data).
Proof. apply lookup_singleton_eq. Qed.

Lemma upload_invalid_format_witness :
  ~ valid_format (WavFile 2 2 16000 (silence 4))
  /\ snd (@upload scripted nat (list document) hello_engine counting_pipeline
            list_store ascii_lower toy_platform
            logged_in (request_of (lit "talk.WAV") stereo_upload)
            (lit "0f") fresh_world)
     = Returned (Json 400 (error_body InvalidAudioFormat)).
Proof.
  assert (~ valid_format (WavFile 2 2 16000 (silence 4))) as Hbad
    by (intros (Hch & _); vm_compute in Hch; discriminate).
  split; [exact Hbad|].
  rewrite (@upload_invalid_format scripted nat (list document) hello_engine
             counting_pipeline list_store ascii_lower toy_platform
             logged_in (request_of (lit "talk.WAV") stereo_upload) (lit "0f")
             alice (UploadFile (lit "talk.WAV") stereo_upload)
             (WavFile 2 2 16000 (silence 4)) fresh_world
             request_user (request_file _ _) ltac:(discriminate)
             talk_allowed eq_refl Hbad).
  reflexivity.
Defined.

Lemma upload_not_wave_witness :
  snd (@upload scripted nat (list document) hello_engine counting_pipeline
         list_store ascii_lower toy_platform
         logged_in (request_of (lit "talk.WAV") [x01]) (lit "0f") fresh_world)
  = Raised (Exception "file does not start with RIFF id")
  /\ files (fst (@upload scripted nat (list document) hello_engine
                   counting_pipeline list_store ascii_lower toy_platform
                   logged_in (request_of (lit "talk.WAV") [x01]) (lit "0f")
                   fresh_world))
     = {[ lit "static/uploads/0f.wav" := [x01] ]}.
Proof.
  rewrite (@upload_not_wave scripted nat (list document) hello_engine
             counting_pipeline list_store ascii_lower toy_platform
             logged_in (request_of (lit "talk.WAV") [x01]) (lit "0f")
             alice (UploadFile (lit "talk.WAV") [x01]) _ fresh_world
             request_user (request_file _ _) ltac:(discriminate)
             talk_allowed eq_refl).
  split; reflexivity.
Defined.

Lemma upload_silence_witness :
  snd (@upload scripted nat (list document) silent_engine counting_pipeline
         list_store ascii_lower toy_platform
         logged_in (request_of (lit "talk.WAV") mono_upload) (lit "0f")
         fresh_world)
  = Returned (Json 400 (error_body EmptyTranscript)).
Proof.
  destruct silent_engine_feed as (evs & Hfeed).
  exact (proj1 (@upload_silence scripted nat (list document) silent_engine
                  counting_pipeline list_store ascii_lower toy_platform
                  logged_in (request_of (lit "talk.WAV") mono_upload) (lit "0f")
                  alice (UploadFile (lit "talk.WAV") mono_upload)
                  short_clip _ _ _ _ _ _ fresh_world
                  request_user (request_file _ _) ltac:(discriminate)
                  talk_allowed eq_refl short_clip_valid eq_refl Hfeed eq_refl
                  (List.Forall_nil _) (List.Forall_nil _))).
Defined.

Lemma hello_engine_short_feed :
  exists evs,
    @feed scripted hello_engine
      (Scripted [Utterance (lit "hello"); Utterance (lit "")] [] (lit "world"))
      (batches short_clip)
    = (evs, inr (Scripted [Utterance (lit "")] (lit "hello") (lit "world"),
                 [lit "hello"])).
Proof. eexists. vm_compute. reflexivity. Qed.

Lemma hello_world_generates :
  @generates nat counting_pipeline 0 (chunks_of (prompt_of (lit "hello world")))
    1 [nl ++ lit "You are"].
Proof.
  let cs := eval vm_compute in (chunks_of (prompt_of (lit "hello world"))) in
  change (chunks_of (prompt_of (lit "hello world"))) with cs.
  eapply generates_cons; [reflexivity | vm_compute; reflexivity |].
  apply generates_nil.
Qed.

Lemma upload_success_witness :
  snd (@upload scripted nat (list document) hello_engine counting_pipeline
         list_store ascii_lower toy_platform
         logged_in (request_of (lit "talk.WAV") mono_upload) (lit "0f")
         fresh_world)
  = Returned (Json 200 (processed_body (Some (lit "hello world"))
                          (Some (lit "You are"))))
  /\ store (fst (@upload scripted nat (list document) hello_engine
                   counting_pipeline list_store ascii_lower toy_platform
                   logged_in (request_of (lit "talk.WAV") mono_upload)
                   (lit "0f") fresh_world))
     = [record_of alice (lit "0f.wav") (Some (lit "hello world"))
          (Some (lit "You are"))].
Proof.
  destruct hello_engine_short_feed as (evs & Hfeed).
  destruct (@upload_success scripted nat (list document) hello_engine
              counting_pipeline list_store ascii_lower toy_platform
              logged_in (request_of (lit "talk.WAV") mono_upload) (lit "0f")
              alice (UploadFile (lit "talk.WAV") mono_upload)
              short_clip _ _ _ _ [lit "hello"] {[ lit "text" := lit "world" ]}
              1 [nl ++ lit "You are"] _ fresh_world
              request_user (request_file _ _) ltac:(discriminate)
              talk_allowed eq_refl short_clip_valid eq_refl Hfeed eq_refl
              ltac:(vm_compute; discriminate) hello_world_generates eq_refl)
    as (Hout & Hdb & _).
  split; [exact Hout | exact Hdb].
Defined.

Lemma transcribe_error_iff_invalid_witness :
  wave_accepts (stereo44k (silence 8))
  /\ ~ valid_format (stereo44k (silence 8))
  /\ exists transcript err,
       snd (@transcribe_container scripted hello_engine (stereo44k (silence 8)))
       = Returned (transcript, Some err).
Proof.
  assert (~ valid_format (stereo44k (silence 8))) as Hbad
    by (intros (Hch & _); vm_compute in Hch; discriminate).
  split; [exact stereo_accepted|]. split; [exact Hbad|].
  exact (proj2 (proj1 (@transcribe_error_iff_invalid scripted hello_engine
                         (stereo44k (silence 8)) stereo_accepted)) Hbad).
Defined.

